(** * The retry helper of [src/clients/retry.ts]

    A shallow embedding of [isRetryableStatusCode], [defaultIsRetryable],
    [defaultGetRetryAfterMs] and [withRetry], followed by the properties
    the specification states about them.

    Modelling choices, fixed here once:
    - a JavaScript number is a mathematical integer ([Z]); rounding,
      infinities, fractions and a [NaN] held by a failure are outside
      the model.  The one [NaN] the code tests for, the result of
      [Number.parseInt] on a string without digits, is [None];
    - a string is a sequence of code units below U+0100 ([string]);
    - an object is a finite map from property names to values, together
      with the message of the [Error] it is an instance of, if any (the
      type of [Error.message] is [string]);
    - the wrapped operation [fn] is a transition on an abstract world
      [W]: each invocation settles (fulfils or rejects) and leaves a new
      world.  The user-supplied [isRetryable] and [getRetryAfterMs] are
      pure functions;
    - what [withRetry] does besides settling is recorded in a [Runtime]:
      the number of invocations of [fn], the lines written with
      [console.error] and the delays passed to [sleep], oldest first. *)

From Stdlib Require Import ZArith Lia String Ascii List DecimalString DecimalPos.
From stdpp Require Import base option list gmap strings.
From Equations Require Import Equations.
From Equations.Prop Require Import Logic.
Import ListNotations.

#[local] Set Warnings "-register-all".
#[local] Open Scope Z_scope.

(** ** JavaScript values *)

Module Js.

Inductive JsValue : Type :=
| JsUndefined
| JsNull
| JsBoolean (b : bool)
| JsNumber (n : Z)
| JsString (s : string)
| JsObject (error : option string) (props : gmap string JsValue)
| JsFunction (props : gmap string JsValue).

Inductive TypeTag : Type :=
| TUndefined | TObject | TBoolean | TNumber | TString | TFunction.

#[global] Instance TypeTag_eq_dec : EqDecision TypeTag.
Proof. solve_decision. Defined.

(** [typeof v]; [typeof null] is ["object"]. *)
Definition typeof (v : JsValue) : TypeTag :=
  match v with
  | JsUndefined => TUndefined
  | JsNull => TObject
  | JsBoolean _ => TBoolean
  | JsNumber _ => TNumber
  | JsString _ => TString
  | JsObject _ _ => TObject
  | JsFunction _ => TFunction
  end.

(** [ToBoolean v], the test an [if (v)] or [v && ...] makes. *)
Definition truthy (v : JsValue) : bool :=
  match v with
  | JsUndefined | JsNull => false
  | JsBoolean b => b
  | JsNumber n => negb (n =? 0)
  | JsString s => negb (String.eqb s EmptyString)
  | JsObject _ _ | JsFunction _ => true
  end.

(** [Reflect.get(target, key)]: the property, or [undefined] when it is
    missing.  On a target that holds no properties [Reflect.get] raises a
    [TypeError]; every call in [retry.ts] is guarded by a [typeof] test,
    and the model answers [undefined] there. *)
Definition Reflect_get (target : JsValue) (key : string) : JsValue :=
  match target with
  | JsObject _ props | JsFunction props => default JsUndefined (props !! key)
  | _ => JsUndefined
  end.

(** [a ?? b] *)
Definition nullish (v : JsValue) : bool :=
  match v with JsUndefined | JsNull => true | _ => false end.

Definition coalesce (a b : JsValue) : JsValue :=
  if nullish a then b else a.

(** [v instanceof Error], giving the message. *)
Definition instanceof_Error (v : JsValue) : option string :=
  match v with JsObject (Some message) _ => Some message | _ => None end.

(** [String.prototype.toLowerCase] on code units below U+0100: the
    letters A-Z and the Latin-1 capitals U+00C0..U+00DE except U+00D7. *)
Definition lower_unit (c : ascii) : ascii :=
  let n := N_of_ascii c in
  if ((65 <=? n) && (n <=? 90)
      || (192 <=? n) && (n <=? 222) && negb (n =? 215))%N
  then ascii_of_N (n + 32) else c.

Fixpoint toLowerCase (s : string) : string :=
  match s with
  | EmptyString => EmptyString
  | String c rest => String (lower_unit c) (toLowerCase rest)
  end.

(** [hay.includes(needle)] *)
Fixpoint includes (hay needle : string) : bool :=
  String.prefix needle hay
  || match hay with
     | EmptyString => false
     | String _ rest => includes rest needle
     end.

(** [Number.parseInt(s, 10)]: leading white space is skipped, one sign is
    read, then the longest run of decimal digits; whatever follows is
    ignored.  No digit at all gives [NaN], here [None]. *)
Definition is_white_space (c : ascii) : bool :=
  let n := N_of_ascii c in
  ((9 <=? n) && (n <=? 13) || (n =? 32) || (n =? 160))%N.

Definition digit_value (c : ascii) : option Z :=
  let n := N_of_ascii c in
  if ((48 <=? n) && (n <=? 57))%N then Some (Z.of_N n - 48) else None.

Fixpoint skip_white_space (s : string) : string :=
  match s with
  | String c rest => if is_white_space c then skip_white_space rest else s
  | EmptyString => s
  end.

(** The digits read so far are carried in [acc]. *)
Fixpoint read_digits (acc : option Z) (s : string) : option Z :=
  match s with
  | String c rest =>
      match digit_value c with
      | Some d => read_digits (Some (10 * default 0 acc + d)) rest
      | None => acc
      end
  | EmptyString => acc
  end.

Definition parseInt10 (s : string) : option Z :=
  match skip_white_space s with
  | String "-" rest => Z.opp <$> read_digits None rest
  | String "+" rest => read_digits None rest
  | rest => read_digits None rest
  end.

(** [`${n}`] for an integer [n] (of magnitude below 1e21, where
    JavaScript switches to exponent notation). *)
Definition number_to_string (n : Z) : string :=
  NilZero.string_of_int (Z.to_int n).

End Js.
Export Js.

Notation "a ?? b" := (coalesce a b) (at level 61, left associativity).

(** ** The retry helper *)

Module Retry.

(** [RetryOptions]: every field is optional. *)
Record RetryOptions : Type := {
  maxRetries : option Z;
  initialDelayMs : option Z;
  maxDelayMs : option Z;
  isRetryable : option (JsValue -> bool);
  getRetryAfterMs : option (JsValue -> option Z);
  label : option string
}.

Module DEFAULT_RETRY_OPTIONS.
Definition maxRetries : Z := 10.
Definition initialDelayMs : Z := 1000.
Definition maxDelayMs : Z := 30000.
End DEFAULT_RETRY_OPTIONS.

Definition RETRYABLE_STATUS_CODES : gset Z :=
  {[ 408; 429; 500; 502; 503; 504 ]}.

Definition isRetryableStatusCode (statusCode : Z) : bool :=
  bool_decide (statusCode ∈ RETRYABLE_STATUS_CODES).

(** [typeof v === "number" && isRetryableStatusCode(v)] *)
Definition is_retryable_number (v : JsValue) : bool :=
  match v with
  | JsNumber n => isRetryableStatusCode n
  | _ => false
  end.

Definition defaultIsRetryable (error : JsValue) : bool :=
  if truthy error && bool_decide (typeof error = TObject)
     && (let status := Reflect_get error "status" ?? Reflect_get error "code" in
         if is_retryable_number status then true
         else
           let statusCode := Reflect_get error "statusCode" in
           is_retryable_number statusCode)
  then true
  else
    match instanceof_Error error with
    | Some text =>
        let message := toLowerCase text in
        includes message "timeout"
        || includes message "econnreset"
        || includes message "econnrefused"
        || includes message "socket hang up"
        || includes message "network"
        || includes message "request_timeout"
    | None => false
    end.

(** [null] is [None]. *)
Definition defaultGetRetryAfterMs (error : JsValue) : option Z :=
  if negb (truthy error) || negb (bool_decide (typeof error = TObject))
  then None
  else
    let headers := Reflect_get error "headers" in
    if truthy headers && bool_decide (typeof headers = TObject) then
      let retryAfter :=
        Reflect_get headers "retry-after" ?? Reflect_get headers "Retry-After" in
      match
        match retryAfter with
        | JsString text => (fun seconds => seconds * 1000) <$> parseInt10 text
        | _ => None
        end
      with
      | Some ms => Some ms
      | None =>
          match retryAfter with
          | JsNumber seconds => Some (seconds * 1000)
          | _ => None
          end
      end
    else None.

(** How a promise settles. *)
Inductive Settled (T : Type) : Type :=
| Fulfilled (value : T)
| Rejected (reason : JsValue).
Arguments Fulfilled {T} value.
Arguments Rejected {T} reason.

(** What a call of [withRetry] has done so far. *)
Record Runtime (W : Type) : Type := mkRuntime {
  world : W;
  invocations : nat;
  stderr : list string;
  timers : list Z
}.
Arguments mkRuntime {W}.
Arguments world {W}.
Arguments invocations {W}.
Arguments stderr {W}.
Arguments timers {W}.

Definition start {W : Type} (w : W) : Runtime W := mkRuntime w 0 [] [].

Section Effects.
Context {T W : Type}.

(** [await fn()] *)
Definition invoke (fn : W -> Settled T * W) (rt : Runtime W)
  : Settled T * Runtime W :=
  let '(outcome, w) := fn (world rt) in
  (outcome, mkRuntime w (S (invocations rt)) (stderr rt) (timers rt)).

Definition console_error (line : string) (rt : Runtime W) : Runtime W :=
  mkRuntime (world rt) (invocations rt) (stderr rt ++ [line]) (timers rt).

(** [await sleep(ms)] *)
Definition sleep (ms : Z) (rt : Runtime W) : Runtime W :=
  mkRuntime (world rt) (invocations rt) (stderr rt) (timers rt ++ [ms]).

End Effects.

Definition retry_message (prefix : string) (delay nextAttempt maxRetries : Z)
  : string :=
  (prefix +:+ "Transient error, retrying in " +:+ number_to_string delay
   +:+ "ms (attempt " +:+ number_to_string nextAttempt +:+ "/"
   +:+ number_to_string maxRetries +:+ ")")%string.

Section Loop.
Context {T W : Type}.
Variable fn : W -> Settled T * W.
Variables maxRetries initialDelayMs maxDelayMs : Z.
Variable isRetryable : JsValue -> bool.
Variable getRetryAfterMs : JsValue -> option Z.
Variable label : option string.

(** The [for] loop of [withRetry], entered with the loop variable at
    [attempt]. *)
Equations? retryLoop (attempt : Z) (lastError : JsValue) (rt : Runtime W)
  : Settled T * Runtime W
  by wf (Z.to_nat (maxRetries + 1 - attempt)) lt :=
retryLoop attempt lastError rt with inspect (attempt <=? maxRetries) := {
  | exist _ false _ => (Rejected lastError, rt)
  | exist _ true Hguard with invoke fn rt := {
    | (Fulfilled value, rt1) => (Fulfilled value, rt1)
    | (Rejected error, rt1) with isRetryable error := {
      | false => (Rejected error, rt1)
      | true with inspect (attempt =? maxRetries) := {
        | exist _ true _ => (Rejected error, rt1)
        | exist _ false Hmore =>
            let retryAfter := getRetryAfterMs error in
            let exponentialDelay := initialDelayMs * 2 ^ attempt in
            let delay := Z.min (default exponentialDelay retryAfter) maxDelayMs in
            let nextAttempt := attempt + 1 in
            let prefix :=
              match label with
              | Some text => if truthy (JsString text) then text +:+ ": " else EmptyString
              | None => EmptyString
              end%string in
            let rt2 :=
              console_error (retry_message prefix delay nextAttempt maxRetries) rt1 in
            retryLoop (attempt + 1) error (sleep delay rt2) } } } }.
Proof. lia. Qed.

End Loop.

Definition withRetry {T W : Type} (fn : W -> Settled T * W)
  (options : RetryOptions) (rt : Runtime W) : Settled T * Runtime W :=
  retryLoop fn
    (default DEFAULT_RETRY_OPTIONS.maxRetries (maxRetries options))
    (default DEFAULT_RETRY_OPTIONS.initialDelayMs (initialDelayMs options))
    (default DEFAULT_RETRY_OPTIONS.maxDelayMs (maxDelayMs options))
    (default defaultIsRetryable (isRetryable options))
    (default defaultGetRetryAfterMs (getRetryAfterMs options))
    (label options)
    0 JsUndefined rt.

End Retry.
Export Retry.

(** ** Vocabulary of the properties *)

Section Invocations.
Context {T W : Type}.
Variable fn : W -> Settled T * W.

(** The world left by the first [k] invocations of [fn], and how
    invocation number [k] (counted from 0) settles. *)
Fixpoint worldAfter (k : nat) (w : W) : W :=
  match k with
  | O => w
  | S k' => worldAfter k' (snd (fn w))
  end.

Definition settlement (k : nat) (w : W) : Settled T :=
  fst (fn (worldAfter k w)).

End Invocations.

(** The delay line 148 computes from a hint and the attempt index. *)
Definition delay_of (initialDelayMs maxDelayMs : Z) (hint : option Z)
  (attemptIndex : Z) : Z :=
  match hint with
  | Some h => Z.min h maxDelayMs
  | None => Z.min (initialDelayMs * 2 ^ attemptIndex) maxDelayMs
  end.

(** The runtime in which the next iteration starts after a retryable
    failure: one more line on [stderr], one more delay slept. *)
Definition backed_off {W : Type} (maxRetries initialDelayMs maxDelayMs : Z)
  (getRetryAfterMs : JsValue -> option Z) (label : option string)
  (attempt : Z) (error : JsValue) (rt : Runtime W) : Runtime W :=
  let delay :=
    delay_of initialDelayMs maxDelayMs (getRetryAfterMs error) attempt in
  let prefix :=
    match label with
    | Some text => if truthy (JsString text) then text +:+ ": " else EmptyString
    | None => EmptyString
    end%string in
  sleep delay
    (console_error (retry_message prefix delay (attempt + 1) maxRetries) rt).

(** Resolved fields of a [RetryOptions]. *)
Definition maxRetries_of (o : RetryOptions) : Z :=
  default DEFAULT_RETRY_OPTIONS.maxRetries (maxRetries o).
Definition initialDelayMs_of (o : RetryOptions) : Z :=
  default DEFAULT_RETRY_OPTIONS.initialDelayMs (initialDelayMs o).
Definition maxDelayMs_of (o : RetryOptions) : Z :=
  default DEFAULT_RETRY_OPTIONS.maxDelayMs (maxDelayMs o).
Definition isRetryable_of (o : RetryOptions) : JsValue -> bool :=
  default defaultIsRetryable (isRetryable o).
Definition getRetryAfterMs_of (o : RetryOptions) : JsValue -> option Z :=
  default defaultGetRetryAfterMs (getRetryAfterMs o).

(** The specification's wording of the two default helpers. *)
Module Spec.

Definition transient_words : list string :=
  ["timeout"; "econnreset"; "econnrefused"; "socket hang up"; "network";
   "request_timeout"]%string.

Definition contains (text word : string) : Prop :=
  exists before after : string, text = (before +:+ word +:+ after)%string.

(** "it is an error whose message (case-insensitive) contains one of ..." *)
Definition transient_message (failure : JsValue) : Prop :=
  exists message props word,
    failure = JsObject (Some message) props
    /\ word ∈ transient_words
    /\ contains (toLowerCase message) word.

(** "it carries a numeric status/error code field equal to one of
    {408, 429, 500, 502, 503, 504} (checked under either a status/code
    key or a statusCode key)", read as: one of the three keys holds
    such a number. *)
Definition carries_retryable_code (failure : JsValue) : Prop :=
  exists error props key n,
    failure = JsObject error props
    /\ key ∈ ["status"; "code"; "statusCode"]%string
    /\ props !! key = Some (JsNumber n)
    /\ n ∈ RETRYABLE_STATUS_CODES.

Definition retryable (failure : JsValue) : Prop :=
  carries_retryable_code failure \/ transient_message failure.

(** What the code does instead: [code] is consulted only when [status]
    is missing, [null] or [undefined]. *)
Definition absent (entry : option JsValue) : Prop :=
  entry = None \/ entry = Some JsUndefined \/ entry = Some JsNull.

Definition selected_retryable_code (failure : JsValue) : Prop :=
  exists error props n,
    failure = JsObject error props
    /\ n ∈ RETRYABLE_STATUS_CODES
    /\ (props !! "status" = Some (JsNumber n)
        \/ (absent (props !! "status") /\ props !! "code" = Some (JsNumber n))
        \/ props !! "statusCode" = Some (JsNumber n)).

(** A base-10 integer string: an optional sign and one or more decimal
    digits, nothing else. *)
Fixpoint digits_only (acc : option Z) (s : string) : option Z :=
  match s with
  | EmptyString => acc
  | String c rest =>
      match digit_value c with
      | Some d => digits_only (Some (10 * default 0 acc + d)) rest
      | None => None
      end
  end.

Definition integer_string (s : string) : option Z :=
  match s with
  | String "-" rest => Z.opp <$> digits_only None rest
  | String "+" rest => digits_only None rest
  | _ => digits_only None s
  end.

(** "either a numeric value or a base-10 integer string", as seconds. *)
Definition seconds_of (entry : JsValue) (seconds : Z) : Prop :=
  entry = JsNumber seconds
  \/ exists text, entry = JsString text /\ integer_string text = Some seconds.

(** "the failure carries a headers field containing a case-variant
    retry-after/Retry-After entry", with the hint it stands for. *)
Definition carries_retry_after (failure : JsValue) (ms : Z) : Prop :=
  exists error props herror headers key entry seconds,
    failure = JsObject error props
    /\ props !! "headers" = Some (JsObject herror headers)
    /\ key ∈ ["retry-after"; "Retry-After"]%string
    /\ headers !! key = Some entry
    /\ seconds_of entry seconds
    /\ ms = seconds * 1000.

Definition hint_as_specified (failure : JsValue) : Prop :=
  forall ms, defaultGetRetryAfterMs failure = Some ms
             <-> carries_retry_after failure ms.

(** What the code does instead: ["Retry-After"] is consulted only when
    ["retry-after"] is missing, [null] or [undefined], and a string counts
    with whatever integer [Number.parseInt] reads at its start. *)
Definition selected_entry (headers : gmap string JsValue) (entry : JsValue)
  : Prop :=
  (headers !! "retry-after" = Some entry /\ nullish entry = false)
  \/ (absent (headers !! "retry-after") /\ headers !! "Retry-After" = Some entry).

Definition seconds_read (entry : JsValue) (seconds : Z) : Prop :=
  entry = JsNumber seconds
  \/ exists text, entry = JsString text /\ parseInt10 text = Some seconds.

Definition selects_retry_after (failure : JsValue) (ms : Z) : Prop :=
  exists error props herror headers entry seconds,
    failure = JsObject error props
    /\ props !! "headers" = Some (JsObject herror headers)
    /\ selected_entry headers entry
    /\ seconds_read entry seconds
    /\ ms = seconds * 1000.

End Spec.

(** ** Sample failures and operations *)

Module Samples.

Definition obj (fields : list (string * JsValue)) : JsValue :=
  JsObject None (list_to_map fields).

Definition no_options : RetryOptions :=
  {| maxRetries := None; initialDelayMs := None; maxDelayMs := None;
     isRetryable := None; getRetryAfterMs := None; label := None |}.

Definition retries (n : Z) : RetryOptions :=
  {| maxRetries := Some n; initialDelayMs := None; maxDelayMs := None;
     isRetryable := None; getRetryAfterMs := None; label := None |}.

(** An operation that plays a script: the world is the number of
    invocations made so far; past the end of the script it rejects
    with [otherwise]. *)
Definition scripted {T : Type} (script : list (Settled T)) (otherwise : JsValue)
  (w : nat) : Settled T * nat :=
  (default (Rejected otherwise) (script !! w), S w).

Definition status (n : Z) : JsValue := obj [("status", JsNumber n)]%string.

Definition retry_after (entry : JsValue) : JsValue :=
  obj [("status", JsNumber 503);
       ("headers", obj [("retry-after", entry)])]%string.

Definition status_shadows_code : JsValue :=
  obj [("status", JsString "error"); ("code", JsNumber 503)]%string.

Definition fractional_retry_after : JsValue :=
  obj [("headers", obj [("retry-after", JsString "5.5")])]%string.

Definition shadowed_retry_after : JsValue :=
  obj [("headers", obj [("retry-after", JsString "soon");
                        ("Retry-After", JsNumber 5)])]%string.

End Samples.

(** ** Vocabulary of the further properties *)

(** A settlement after which the loop goes on (budget permitting): a
    rejection the predicate accepts. *)
Definition retryable_rejection {T : Type} (isRetryable : JsValue -> bool)
  (outcome : Settled T) : bool :=
  match outcome with
  | Rejected error => isRetryable error
  | Fulfilled _ => false
  end.

(** The prefix of line 151. *)
Definition label_prefix (label : option string) : string :=
  match label with
  | Some text => if truthy (JsString text) then text +:+ ": " else EmptyString
  | None => EmptyString
  end%string.

(** The time slept in all. *)
Definition total_delay (delays : list Z) : Z := foldr Z.add 0 delays.

(** The same options under another label. *)
Definition with_label (text : option string) (o : RetryOptions)
  : RetryOptions :=
  {| maxRetries := maxRetries o; initialDelayMs := initialDelayMs o;
     maxDelayMs := maxDelayMs o; isRetryable := isRetryable o;
     getRetryAfterMs := getRetryAfterMs o; label := text |}.

(** * Properties *)

(** ** The loop, one iteration at a time *)

Section LoopFacts.
Context {T W : Type}.
Variable fn : W -> Settled T * W.
Variables maxRetries initialDelayMs maxDelayMs : Z.
Variable isRetryable : JsValue -> bool.
Variable getRetryAfterMs : JsValue -> option Z.
Variable label : option string.

#[local] Abbreviation loop :=
  (retryLoop fn maxRetries initialDelayMs maxDelayMs isRetryable
     getRetryAfterMs label).
#[local] Abbreviation next :=
  (backed_off maxRetries initialDelayMs maxDelayMs getRetryAfterMs label).

Lemma if_decided {A : Type} (b c : bool) (x y : A) :
  b = c -> (if b then x else y) = (if c then x else y).
Proof. intros ->. reflexivity. Qed.

Lemma retryLoop_unfold attempt lastError rt :
  loop attempt lastError rt =
  if attempt <=? maxRetries then
    match invoke fn rt with
    | (Fulfilled value, rt1) => (Fulfilled value, rt1)
    | (Rejected error, rt1) =>
        if isRetryable error then
          if attempt =? maxRetries then (Rejected error, rt1)
          else loop (attempt + 1) error (next attempt error rt1)
        else (Rejected error, rt1)
    end
  else (Rejected lastError, rt).
Proof.
  simp retryLoop.
  destruct (inspect (attempt <=? maxRetries)) as [[] Hguard];
    rewrite (if_decided _ _ _ _ Hguard); simp retryLoop; [|reflexivity].
  destruct (invoke fn rt) as [[value|error] rt1]; simp retryLoop; [reflexivity|].
  destruct (isRetryable error); simp retryLoop; [|reflexivity].
  destruct (inspect (attempt =? maxRetries)) as [[] Hlast];
    rewrite (if_decided _ _ _ _ Hlast); simp retryLoop; [reflexivity|].
  unfold backed_off, delay_of. destruct (getRetryAfterMs error); reflexivity.
Qed.

Lemma invoke_eq rt outcome w :
  fn (world rt) = (outcome, w) ->
  invoke fn rt
  = (outcome, mkRuntime w (S (invocations rt)) (stderr rt) (timers rt)).
Proof. unfold invoke. intros ->. reflexivity. Qed.

Lemma retryLoop_exit attempt lastError rt :
  maxRetries < attempt -> loop attempt lastError rt = (Rejected lastError, rt).
Proof.
  intros Hlt. rewrite retryLoop_unfold.
  destruct (Z.leb_spec attempt maxRetries); [lia | reflexivity].
Qed.

Lemma retryLoop_fulfilled attempt lastError rt value w :
  attempt <= maxRetries ->
  fn (world rt) = (Fulfilled value, w) ->
  loop attempt lastError rt
  = (Fulfilled value,
     mkRuntime w (S (invocations rt)) (stderr rt) (timers rt)).
Proof.
  intros Hle Hfn. rewrite retryLoop_unfold, (invoke_eq _ _ _ Hfn).
  destruct (Z.leb_spec attempt maxRetries); [reflexivity | lia].
Qed.

Lemma retryLoop_fatal attempt lastError rt error w :
  attempt <= maxRetries ->
  fn (world rt) = (Rejected error, w) ->
  isRetryable error = false ->
  loop attempt lastError rt
  = (Rejected error,
     mkRuntime w (S (invocations rt)) (stderr rt) (timers rt)).
Proof.
  intros Hle Hfn Hno. rewrite retryLoop_unfold, (invoke_eq _ _ _ Hfn), Hno.
  destruct (Z.leb_spec attempt maxRetries); [reflexivity | lia].
Qed.

Lemma retryLoop_exhausted lastError rt error w :
  fn (world rt) = (Rejected error, w) ->
  loop maxRetries lastError rt
  = (Rejected error,
     mkRuntime w (S (invocations rt)) (stderr rt) (timers rt)).
Proof.
  intros Hfn. rewrite retryLoop_unfold, (invoke_eq _ _ _ Hfn).
  rewrite Z.leb_refl, Z.eqb_refl. destruct (isRetryable error); reflexivity.
Qed.

Lemma retryLoop_retry attempt lastError rt error w :
  attempt < maxRetries ->
  fn (world rt) = (Rejected error, w) ->
  isRetryable error = true ->
  loop attempt lastError rt
  = loop (attempt + 1) error
      (next attempt error
         (mkRuntime w (S (invocations rt)) (stderr rt) (timers rt))).
Proof.
  intros Hlt Hfn Hyes. rewrite retryLoop_unfold, (invoke_eq _ _ _ Hfn), Hyes.
  destruct (Z.leb_spec attempt maxRetries); [|lia].
  destruct (Z.eqb_spec attempt maxRetries); [lia | reflexivity].
Qed.

(** What a run adds to the runtime: the delays slept, each computed from
    the failure of the invocation it follows, as many lines as delays,
    and one invocation more than delays. *)
Lemma retryLoop_trace (n : nat) : forall attempt lastError rt,
  (Z.to_nat (maxRetries + 1 - attempt) <= n)%nat ->
  exists delays lines,
    timers (snd (loop attempt lastError rt)) = timers rt ++ delays
    /\ stderr (snd (loop attempt lastError rt)) = stderr rt ++ lines
    /\ length lines = length delays
    /\ (attempt <= maxRetries ->
        invocations (snd (loop attempt lastError rt))
        = (invocations rt + S (length delays))%nat)
    /\ (attempt <= maxRetries ->
        Z.of_nat (length delays) <= maxRetries - attempt)
    /\ forall (i : nat) (d : Z), delays !! i = Some d ->
         exists error,
           settlement fn i (world rt) = Rejected error
           /\ isRetryable error = true
           /\ d = delay_of initialDelayMs maxDelayMs (getRetryAfterMs error)
                    (attempt + Z.of_nat i).
Proof.
  induction n as [|n IH]; intros attempt lastError rt Hn.
  - rewrite retryLoop_exit by lia. exists [], []. simpl.
    rewrite !app_nil_r. repeat split; try lia. intros i d Hi. discriminate.
  - destruct (Z.lt_ge_cases maxRetries attempt) as [Hout|Hin].
    { rewrite retryLoop_exit by lia. exists [], []. simpl.
      rewrite !app_nil_r. repeat split; try lia. intros i d Hi. discriminate. }
    destruct (fn (world rt)) as [[value|error] w] eqn:Hfn.
    { rewrite (retryLoop_fulfilled _ _ _ _ _ Hin Hfn). exists [], []. simpl.
      rewrite !app_nil_r. repeat split; try lia. intros i d Hi. discriminate. }
    destruct (isRetryable error) eqn:Hretryable.
    2:{ rewrite (retryLoop_fatal _ _ _ _ _ Hin Hfn Hretryable).
        exists [], []. simpl. rewrite !app_nil_r. repeat split; try lia.
        intros i d Hi. discriminate. }
    destruct (Z.eq_dec attempt maxRetries) as [->|Hne].
    { rewrite (retryLoop_exhausted _ _ _ _ Hfn). exists [], []. simpl.
      rewrite !app_nil_r. repeat split; try lia. intros i d Hi. discriminate. }
    assert (Hlt : attempt < maxRetries) by lia.
    rewrite (retryLoop_retry _ _ _ _ _ Hlt Hfn Hretryable).
    set (rt1 := next attempt error _).
    destruct (IH (attempt + 1) error rt1 ltac:(lia))
      as (delays & lines & Htimers & Hstderr & Hlen & Hcalls & Hbound
          & Hdelays).
    exists (delay_of initialDelayMs maxDelayMs (getRetryAfterMs error) attempt
              :: delays),
           (retry_message
              match label with
              | Some text => if truthy (JsString text) then text +:+ ": " else EmptyString
              | None => EmptyString
              end%string
              (delay_of initialDelayMs maxDelayMs (getRetryAfterMs error) attempt)
              (attempt + 1) maxRetries :: lines).
    rewrite Htimers, Hstderr. subst rt1. simpl.
    rewrite <- !app_assoc. simpl. repeat split; try lia.
    + intros _. rewrite Hcalls by lia. simpl. lia.
    + intros [|i] d Hi.
      * injection Hi as <-. exists error. unfold settlement. simpl.
        rewrite Hfn, Z.add_0_r. auto.
      * destruct (Hdelays i d Hi) as (error' & Hset & Hyes & ->).
        exists error'. unfold settlement in *. simpl in *. rewrite Hfn.
        simpl. repeat split; auto. f_equal. lia.
Qed.

(** When every invocation the budget allows fails retryably, the loop
    runs the budget out. *)
Lemma retryLoop_all_fail (n : nat) : forall attempt lastError rt,
  attempt = maxRetries - Z.of_nat n ->
  (forall k, (k <= n)%nat ->
     exists error, settlement fn k (world rt) = Rejected error
                   /\ isRetryable error = true) ->
  exists error final,
    settlement fn n (world rt) = Rejected error
    /\ loop attempt lastError rt = (Rejected error, final)
    /\ world final = worldAfter fn (S n) (world rt)
    /\ invocations final = (invocations rt + S n)%nat
    /\ length (stderr final) = (length (stderr rt) + n)%nat
    /\ length (timers final) = (length (timers rt) + n)%nat.
Proof.
  induction n as [|n IH]; intros attempt lastError rt Hattempt Hfail.
  - destruct (Hfail O (Nat.le_refl _)) as (error & Hset & _).
    unfold settlement in Hset. simpl in Hset.
    destruct (fn (world rt)) as [outcome w] eqn:Hfn. simpl in Hset. subst outcome.
    replace attempt with maxRetries by lia.
    rewrite (retryLoop_exhausted _ _ _ _ Hfn).
    exists error, (mkRuntime w (S (invocations rt)) (stderr rt) (timers rt)).
    unfold settlement. simpl. rewrite Hfn. simpl. repeat split; lia.
  - destruct (Hfail O (Nat.le_0_l _)) as (error & Hset & Hyes).
    unfold settlement in Hset. simpl in Hset.
    destruct (fn (world rt)) as [outcome w] eqn:Hfn. simpl in Hset. subst outcome.
    assert (Hlt : attempt < maxRetries) by lia.
    rewrite (retryLoop_retry _ _ _ _ _ Hlt Hfn Hyes).
    set (rt1 := next attempt error _).
    destruct (IH (attempt + 1) error rt1 ltac:(lia)) as
      (last & final & Hlast & Hrun & Hworld & Hcalls & Hlines & Hdelays).
    { intros k Hk. destruct (Hfail (S k) ltac:(lia)) as (e & He & Hr).
      exists e. split; [|exact Hr]. unfold settlement in *. simpl in *.
      rewrite Hfn in He. exact He. }
    exists last, final. rewrite Hrun. subst rt1.
    unfold settlement in *. simpl in *. rewrite Hfn. simpl.
    rewrite !length_app in *. simpl in *. repeat split; auto; lia.
Qed.

End LoopFacts.

(** ** [withRetry] *)

Section WithRetryFacts.
Context {T W : Type}.
Variable fn : W -> Settled T * W.
Variable options : RetryOptions.

Lemma withRetry_is_loop rt :
  withRetry fn options rt
  = retryLoop fn (maxRetries_of options) (initialDelayMs_of options)
      (maxDelayMs_of options) (isRetryable_of options)
      (getRetryAfterMs_of options) (label options) 0 JsUndefined rt.
Proof. reflexivity. Qed.

Lemma withRetry_trace w :
  exists delays lines,
    timers (snd (withRetry fn options (start w))) = delays
    /\ stderr (snd (withRetry fn options (start w))) = lines
    /\ length lines = length delays
    /\ (0 <= maxRetries_of options ->
        invocations (snd (withRetry fn options (start w)))
        = S (length delays))
    /\ (0 <= maxRetries_of options ->
        Z.of_nat (length delays) <= maxRetries_of options)
    /\ forall (i : nat) (d : Z), delays !! i = Some d ->
         exists error,
           settlement fn i w = Rejected error
           /\ isRetryable_of options error = true
           /\ d = delay_of (initialDelayMs_of options) (maxDelayMs_of options)
                    (getRetryAfterMs_of options error) (Z.of_nat i).
Proof.
  rewrite withRetry_is_loop.
  destruct (retryLoop_trace fn (maxRetries_of options)
              (initialDelayMs_of options) (maxDelayMs_of options)
              (isRetryable_of options) (getRetryAfterMs_of options)
              (label options) _ 0 JsUndefined (start w) (Nat.le_refl _))
    as (delays & lines & Htimers & Hstderr & Hlen & Hcalls & Hbound
        & Hdelays).
  exists delays, lines. simpl in *. repeat split; auto.
  intros Hbudget. specialize (Hbound Hbudget). lia.
Qed.

(** The first retry: when the first invocation fails retryably and the
    budget allows a retry, the first delay slept is the one computed from
    that failure at attempt index 0. *)
Lemma withRetry_first_delay w error w' :
  1 <= maxRetries_of options ->
  fn w = (Rejected error, w') ->
  isRetryable_of options error = true ->
  timers (snd (withRetry fn options (start w))) !! O
  = Some (delay_of (initialDelayMs_of options) (maxDelayMs_of options)
            (getRetryAfterMs_of options error) 0).
Proof.
  intros Hbudget Hfn Hyes. rewrite withRetry_is_loop.
  assert (Hlt : 0 < maxRetries_of options) by lia.
  rewrite (retryLoop_retry fn _ _ _ _ _ _ 0 JsUndefined (start w) error w' Hlt Hfn Hyes).
  match goal with
  | |- timers (snd (retryLoop _ _ _ _ _ _ _ ?a ?e ?rt)) !! _ = _ =>
      destruct (retryLoop_trace fn (maxRetries_of options)
                  (initialDelayMs_of options) (maxDelayMs_of options)
                  (isRetryable_of options) (getRetryAfterMs_of options)
                  (label options) _ a e rt (Nat.le_refl _))
        as (delays & _ & -> & _)
  end.
  reflexivity.
Qed.

(** C7.  When the first invocation of the operation succeeds with a
    value, [withRetry] resolves with exactly that value after that single
    invocation: nothing is slept and nothing is written to [stderr].
    This holds for every policy (a policy's [maxRetries] is a
    non-negative integer). *)
Theorem withRetry_first_success w value w' :
  0 <= maxRetries_of options ->
  fn w = (Fulfilled value, w') ->
  withRetry fn options (start w) = (Fulfilled value, mkRuntime w' 1 [] []).
Proof.
  intros Hbudget Hfn. rewrite withRetry_is_loop.
  apply (retryLoop_fulfilled _ _ _ _ _ _ _ _ _ (start w)); assumption.
Qed.

(** C2.  A failure the retryability predicate rejects is propagated as
    it is, after exactly one invocation of the operation, whatever the
    (non-negative) value of [maxRetries]; nothing is slept and nothing is
    written to [stderr]. *)
Theorem withRetry_non_retryable w error w' :
  0 <= maxRetries_of options ->
  fn w = (Rejected error, w') ->
  isRetryable_of options error = false ->
  withRetry fn options (start w) = (Rejected error, mkRuntime w' 1 [] []).
Proof.
  intros Hbudget Hfn Hno. rewrite withRetry_is_loop.
  apply (retryLoop_fatal _ _ _ _ _ _ _ _ _ (start w)); assumption.
Qed.

(** C8.  With a negative [maxRetries] the loop body never runs: the
    loop is left without a return and [throw lastError] propagates the
    last recorded failure, which is still the initial [undefined]; the
    operation is not invoked.  The same holds from any iteration whose
    index is past [maxRetries]. *)
Theorem withRetry_negative_budget w :
  maxRetries_of options < 0 ->
  withRetry fn options (start w) = (Rejected JsUndefined, start w)
  /\ forall attempt lastError rt, 0 <= attempt ->
       retryLoop fn (maxRetries_of options) (initialDelayMs_of options)
         (maxDelayMs_of options) (isRetryable_of options)
         (getRetryAfterMs_of options) (label options) attempt lastError rt
       = (Rejected lastError, rt).
Proof.
  intros Hneg. split.
  - rewrite withRetry_is_loop. apply retryLoop_exit. lia.
  - intros attempt lastError rt Hpos. apply retryLoop_exit. lia.
Qed.

(** C1.  With [maxRetries = N] the operation is invoked at most [N + 1]
    times.  When its first [N + 1] invocations all fail with failures the
    retryability predicate accepts, [withRetry] invokes it exactly
    [N + 1] times, propagates the failure of the last of these
    invocations, and writes exactly [N] lines to [stderr] (and sleeps
    [N] times): one per retry, none after the final failure. *)
Theorem withRetry_exhausts_budget (N : nat) w :
  maxRetries_of options = Z.of_nat N ->
  (invocations (snd (withRetry fn options (start w))) <= S N)%nat
  /\ ((forall k, (k <= N)%nat ->
         exists error, settlement fn k w = Rejected error
                       /\ isRetryable_of options error = true) ->
      exists error final,
        settlement fn N w = Rejected error
        /\ withRetry fn options (start w) = (Rejected error, final)
        /\ invocations final = S N
        /\ length (stderr final) = N
        /\ length (timers final) = N).
Proof.
  intros Hbudget. split.
  - destruct (withRetry_trace w)
      as (delays & _ & _ & _ & _ & Hcalls & Hbound & _).
    rewrite Hcalls by lia. specialize (Hbound ltac:(lia)). lia.
  - intros Hfail. rewrite withRetry_is_loop.
    destruct (retryLoop_all_fail fn (maxRetries_of options)
                (initialDelayMs_of options) (maxDelayMs_of options)
                (isRetryable_of options) (getRetryAfterMs_of options)
                (label options) N 0 JsUndefined (start w) ltac:(lia) Hfail)
      as (error & final & Hlast & Hrun & _ & Hcalls & Hlines & Hdelays).
    exists error, final. simpl in *. repeat split; assumption.
Qed.

(** C3.  Every retry sleeps once (the invocations are one more than the
    delays), and the delay slept after invocation [i] is computed from
    the failure of that invocation: [min(h, maxDelayMs)] when the hint
    extractor gives [h], [min(initialDelayMs * 2^i, maxDelayMs)] when it
    gives no hint; a computed delay above [maxDelayMs] is replaced by
    [maxDelayMs]. *)
Theorem withRetry_delay w :
  (0 <= maxRetries_of options ->
   invocations (snd (withRetry fn options (start w)))
   = S (length (timers (snd (withRetry fn options (start w))))))
  /\ forall (i : nat) (d : Z),
       timers (snd (withRetry fn options (start w))) !! i = Some d ->
       exists error,
         settlement fn i w = Rejected error
         /\ isRetryable_of options error = true
         /\ (forall h, getRetryAfterMs_of options error = Some h ->
               d = Z.min h (maxDelayMs_of options))
         /\ (getRetryAfterMs_of options error = None ->
               d = Z.min (initialDelayMs_of options * 2 ^ Z.of_nat i)
                     (maxDelayMs_of options))
         /\ (maxDelayMs_of options
               < default (initialDelayMs_of options * 2 ^ Z.of_nat i)
                   (getRetryAfterMs_of options error) ->
             d = maxDelayMs_of options).
Proof.
  destruct (withRetry_trace w)
    as (delays & lines & <- & _ & _ & Hcalls & _ & Hdelays).
  split; [exact Hcalls|]. intros i d Hi.
  destruct (Hdelays i d Hi) as (error & Hset & Hyes & ->).
  exists error. repeat split; auto.
  - intros h ->. reflexivity.
  - intros ->. reflexivity.
  - unfold delay_of. destruct (getRetryAfterMs_of options error); simpl; lia.
Qed.

(** C4.  Without a retry-after hint and below the cap, the delay slept
    before the [k]-th retry ([k] counted from 1, for every retry that is
    made) is exactly [initialDelayMs * 2^(k-1)]. *)
Theorem withRetry_backoff_sequence (k : nat) w :
  (1 <= k <= length (timers (snd (withRetry fn options (start w)))))%nat ->
  (forall error, settlement fn (k - 1) w = Rejected error ->
     getRetryAfterMs_of options error = None) ->
  initialDelayMs_of options * 2 ^ (Z.of_nat k - 1) <= maxDelayMs_of options ->
  timers (snd (withRetry fn options (start w))) !! (k - 1)%nat
  = Some (initialDelayMs_of options * 2 ^ (Z.of_nat k - 1)).
Proof.
  intros Hk Hnohint Hcap.
  destruct (lookup_lt_is_Some_2
              (timers (snd (withRetry fn options (start w)))) (k - 1)
              ltac:(lia)) as [d Hd].
  rewrite Hd. f_equal.
  destruct (withRetry_trace w)
    as (delays & _ & <- & _ & _ & _ & _ & Hdelays).
  destruct (Hdelays _ _ Hd) as (error & Hset & _ & ->).
  rewrite (Hnohint _ Hset). unfold delay_of.
  replace (Z.of_nat (k - 1)) with (Z.of_nat k - 1) by lia. lia.
Qed.

End WithRetryFacts.

(** ** The default retryability predicate *)

Lemma append_String (c : ascii) (s t : string) :
  (String c s +:+ t)%string = String c (s +:+ t)%string.
Proof. reflexivity. Qed.

Lemma prefix_spec (word text : string) :
  String.prefix word text = true
  <-> exists after : string, text = (word +:+ after)%string.
Proof.
  revert text. induction word as [|c word IH]; intros text.
  - split; [intros _; exists text; reflexivity |].
    intros _. destruct text; reflexivity.
  - destruct text as [|c' text]; simpl.
    + split; [discriminate | intros [after Hafter]].
      rewrite append_String in Hafter. discriminate.
    + destruct (ascii_dec c c') as [<-|Hne].
      * rewrite IH. split; intros [after Hafter]; exists after.
        -- rewrite append_String. congruence.
        -- rewrite append_String in Hafter. congruence.
      * split; [discriminate|]. intros [after Hafter].
        rewrite append_String in Hafter. congruence.
Qed.

Lemma includes_spec (text word : string) :
  includes text word = true <-> Spec.contains text word.
Proof.
  unfold Spec.contains. induction text as [|c text IH].
  - change (includes EmptyString word)
      with (String.prefix word EmptyString || false).
    rewrite orb_false_r, prefix_spec. split.
    + intros [after Hafter]. exists EmptyString, after. exact Hafter.
    + intros ([|c before] & after & Hcut); [exists after; exact Hcut|].
      rewrite append_String in Hcut. discriminate.
  - change (includes (String c text) word)
      with (String.prefix word (String c text) || includes text word).
    rewrite orb_true_iff, IH, prefix_spec. split.
    + intros [[after Hafter]|(before & after & Hcut)].
      * exists EmptyString, after. exact Hafter.
      * exists (String c before), after. rewrite append_String. congruence.
    + intros ([|c' before] & after & Hcut).
      * left. exists after. exact Hcut.
      * right. exists before, after. rewrite append_String in Hcut.
        congruence.
Qed.

Lemma is_retryable_number_spec (v : JsValue) :
  is_retryable_number v = true
  <-> exists n, v = JsNumber n /\ n ∈ RETRYABLE_STATUS_CODES.
Proof.
  destruct v; simpl; unfold isRetryableStatusCode;
    try (split; [discriminate | intros (? & ? & _); discriminate]).
  rewrite bool_decide_eq_true. split.
  - intros Hin. eexists. split; [reflexivity | exact Hin].
  - intros (m & Hm & Hin). congruence.
Qed.

(** [status ?? code] on the properties of an object. *)
Lemma status_or_code_spec (props : gmap string JsValue) (n : Z) :
  default JsUndefined (props !! "status") ?? default JsUndefined (props !! "code")
  = JsNumber n
  <-> props !! "status" = Some (JsNumber n)
      \/ (Spec.absent (props !! "status") /\ props !! "code" = Some (JsNumber n)).
Proof.
  unfold Spec.absent, coalesce.
  destruct (props !! "status") as [[]|]; destruct (props !! "code") as [v|];
    simpl; firstorder congruence.
Qed.

Lemma transient_words_spec (message : string) :
  includes message "timeout"
  || includes message "econnreset"
  || includes message "econnrefused"
  || includes message "socket hang up"
  || includes message "network"
  || includes message "request_timeout" = true
  <-> exists word, word ∈ Spec.transient_words /\ Spec.contains message word.
Proof.
  rewrite !orb_true_iff, !includes_spec. unfold Spec.transient_words. split.
  - intros [[[[[H|H]|H]|H]|H]|H]; eexists; (split; [|exact H]); set_solver.
  - intros (word & Hin & H).
    repeat (apply elem_of_cons in Hin as [->|Hin]; [tauto|]).
    inversion Hin.
Qed.

(** C5, as the code has it.  The default predicate accepts a failure if
    and only if (a) it is an object in which [status] -- or [code], but
    only when [status] is missing, [null] or [undefined] -- or
    [statusCode] holds a number among 408, 429, 500, 502, 503, 504, or
    (b) it is an [Error] whose lower-cased message contains one of
    "timeout", "econnreset", "econnrefused", "socket hang up", "network",
    "request_timeout". *)
Theorem defaultIsRetryable_spec (failure : JsValue) :
  defaultIsRetryable failure = true
  <-> Spec.selected_retryable_code failure \/ Spec.transient_message failure.
Proof.
  unfold Spec.selected_retryable_code, Spec.transient_message.
  destruct failure as [| |b|n|s|error props|props];
    try (split; [| intros [(?&?&?&?&_)|(?&?&?&?&_)]; discriminate]).
  1-2, 4-5, 7: unfold defaultIsRetryable; simpl;
    rewrite ?andb_false_r; simpl; discriminate.
  1: destruct b; discriminate.
  unfold defaultIsRetryable. simpl.
  set (slot := default JsUndefined (props !! "status")
               ?? default JsUndefined (props !! "code")).
  split.
  - destruct (is_retryable_number slot) eqn:Hslot.
    + intros _. left. apply is_retryable_number_spec in Hslot as (n & Hn & Hin).
      apply status_or_code_spec in Hn. exists error, props, n. tauto.
    + destruct (is_retryable_number (default JsUndefined (props !! "statusCode")))
        eqn:Hcode.
      * intros _. left.
        apply is_retryable_number_spec in Hcode as (n & Hn & Hin).
        exists error, props, n. repeat split; auto. right. right.
        destruct (props !! "statusCode"); simpl in Hn; congruence.
      * destruct error as [message|]; [|discriminate].
        intros Hwords. right. apply transient_words_spec in Hwords
          as (word & Hin & Hword).
        exists message, props, word. auto.
  - intros [(error' & props' & n & [= <- <-] & Hin & Hwhere)
           |(message & props' & word & [= -> <-] & Hin & Hword)].
    + destruct Hwhere as [Hstatus|[Hcode|HstatusCode]].
      * assert (Hslot : is_retryable_number slot = true).
        { apply is_retryable_number_spec. exists n. split; [|exact Hin].
          apply status_or_code_spec. auto. }
        rewrite Hslot. reflexivity.
      * assert (Hslot : is_retryable_number slot = true).
        { apply is_retryable_number_spec. exists n. split; [|exact Hin].
          apply status_or_code_spec. auto. }
        rewrite Hslot. reflexivity.
      * destruct (is_retryable_number slot); [reflexivity|].
        rewrite HstatusCode. simpl.
        assert (Hn : is_retryable_number (JsNumber n) = true).
        { apply is_retryable_number_spec. eauto. }
        simpl in Hn. rewrite Hn. reflexivity.
    + destruct (is_retryable_number slot); [reflexivity|].
      destruct (is_retryable_number _); [reflexivity|].
      apply transient_words_spec. eauto.
Qed.

(** The specification's reading of C5 fails where a [status] that is not
    a number hides a retryable [code]: the failure
    [{status: "error", code: 503}] carries the numeric code 503 and is
    rejected. *)
Lemma defaultIsRetryable_status_shadows_code :
  ~ (defaultIsRetryable Samples.status_shadows_code = true
     <-> Spec.retryable Samples.status_shadows_code).
Proof.
  intros [_ Hclaim].
  assert (Hcarries : Spec.retryable Samples.status_shadows_code).
  { left. eexists None, _, "code"%string, 503.
    split; [reflexivity|]. split; [set_solver|].
    split; [reflexivity | set_solver]. }
  apply Hclaim in Hcarries. vm_compute in Hcarries. discriminate.
Qed.

(** C9.  A thrown value that is not an object (for the [typeof] test of
    the code) and not an [Error] instance is never retryable for the
    default predicate, whatever its text: [withRetry] with the default
    predicate propagates it after exactly one invocation. *)
Theorem defaultIsRetryable_non_object (thrown : JsValue) :
  truthy thrown && bool_decide (typeof thrown = TObject) = false ->
  instanceof_Error thrown = None ->
  defaultIsRetryable thrown = false
  /\ forall (T W : Type) (fn : W -> Settled T * W) (options : RetryOptions)
       (w w' : W),
       isRetryable options = None ->
       0 <= maxRetries_of options ->
       fn w = (Rejected thrown, w') ->
       withRetry fn options (start w) = (Rejected thrown, mkRuntime w' 1 [] []).
Proof.
  intros Hplain Hno_error.
  assert (Hreject : defaultIsRetryable thrown = false).
  { unfold defaultIsRetryable. rewrite Hplain, Hno_error. reflexivity. }
  split; [exact Hreject|].
  intros T W fn options w w' Hdefault Hbudget Hfn.
  rewrite withRetry_is_loop.
  apply (retryLoop_fatal fn _ _ _ _ _ _ 0 JsUndefined (start w) thrown w');
    [exact Hbudget | exact Hfn |].
  unfold isRetryable_of. rewrite Hdefault. exact Hreject.
Qed.

(** A string is such a value, also when its text names a timeout. *)
Lemma defaultIsRetryable_string (text : string) :
  defaultIsRetryable (JsString text) = false.
Proof.
  unfold defaultIsRetryable. simpl. rewrite andb_false_r. reflexivity.
Qed.

(** ** The default retry-after extractor *)

Lemma hint_of_entry_spec (entry : JsValue) (ms : Z) :
  match
    match entry with
    | JsString text => (fun seconds => seconds * 1000) <$> parseInt10 text
    | _ => None
    end
  with
  | Some hint => Some hint
  | None =>
      match entry with
      | JsNumber seconds => Some (seconds * 1000)
      | _ => None
      end
  end = Some ms
  <-> exists seconds, Spec.seconds_read entry seconds /\ ms = seconds * 1000.
Proof.
  unfold Spec.seconds_read.
  destruct entry as [| |b|n|text|error props|props];
    try (split; [discriminate|];
         intros (s & [Hnum|(text' & Htext & _)] & _); discriminate).
  - split.
    + intros [= <-]. exists n. auto.
    + intros (s & [Hnum|(text' & Htext & _)] & ->); [|discriminate].
      injection Hnum as ->. reflexivity.
  - destruct (parseInt10 text) as [seconds|] eqn:Hparse; simpl; split.
    + intros [= <-]. exists seconds. split; [right; exists text|]; auto.
    + intros (s & [Hnum|(text' & Htext & Hparse')] & ->); [discriminate|].
      injection Htext as <-. congruence.
    + discriminate.
    + intros (s & [Hnum|(text' & Htext & Hparse')] & _); [discriminate|].
      injection Htext as <-. congruence.
Qed.

Lemma nullish_absent (v : JsValue) :
  nullish v = true <-> Spec.absent (Some v).
Proof.
  unfold Spec.absent. split.
  - destruct v; try discriminate; auto.
  - intros [H|[H|H]]; [discriminate | injection H as -> ..]; reflexivity.
Qed.

Lemma seconds_read_undefined (seconds : Z) :
  ~ Spec.seconds_read JsUndefined seconds.
Proof. intros [H|(text & H & _)]; discriminate. Qed.

Lemma retry_after_entry_spec (headers : gmap string JsValue) (seconds : Z) :
  Spec.seconds_read
    (default JsUndefined (headers !! "retry-after")
     ?? default JsUndefined (headers !! "Retry-After")) seconds
  <-> exists entry,
        Spec.selected_entry headers entry /\ Spec.seconds_read entry seconds.
Proof.
  unfold Spec.selected_entry, coalesce.
  destruct (headers !! "retry-after") as [first|]; simpl.
  - destruct (nullish first) eqn:Hfirst.
    + split.
      * intros Hread. destruct (headers !! "Retry-After") as [second|];
          [|destruct (seconds_read_undefined _ Hread)].
        exists second. split; [right|exact Hread].
        split; [apply nullish_absent; exact Hfirst | reflexivity].
      * intros (entry & [[[= <-] Hentry]|[_ ->]] & Hread);
          [congruence | exact Hread].
    + split.
      * intros Hread. exists first. auto.
      * intros (entry & [[[= <-] _]|[Habsent _]] & Hread); [exact Hread|].
        apply nullish_absent in Habsent. congruence.
  - split.
    + intros Hread. destruct (headers !! "Retry-After") as [second|];
        [|destruct (seconds_read_undefined _ Hread)].
      exists second. split; [right|exact Hread].
      split; [left|]; reflexivity.
    + intros (entry & [[Hfirst _]|[_ ->]] & Hread);
        [discriminate | exact Hread].
Qed.

Lemma digits_only_read (text : string) : forall acc n,
  Spec.digits_only acc text = Some n -> read_digits acc text = Some n.
Proof.
  induction text as [|c text IH]; intros acc n; simpl; [auto|].
  destruct (digit_value c); [apply IH | discriminate].
Qed.

Lemma digit_not_white_space (c : ascii) (d : Z) :
  digit_value c = Some d -> is_white_space c = false.
Proof.
  unfold digit_value, is_white_space.
  destruct c as [[] [] [] [] [] [] [] []]; vm_compute; congruence.
Qed.

(** Every base-10 integer string is read by [Number.parseInt] as the
    integer it denotes. *)
Lemma parseInt10_integer_string (text : string) (n : Z) :
  Spec.integer_string text = Some n -> parseInt10 text = Some n.
Proof.
  destruct text as [|c text]; [discriminate|].
  destruct (digit_value c) as [d|] eqn:Hdigit.
  - intros Hint.
    assert (Hread : read_digits None (String c text) = Some n).
    { apply digits_only_read. revert Hint Hdigit.
      destruct c as [[] [] [] [] [] [] [] []]; simpl; try discriminate; auto. }
    unfold parseInt10. simpl skip_white_space.
    rewrite (digit_not_white_space _ _ Hdigit).
    revert Hread Hdigit.
    destruct c as [[] [] [] [] [] [] [] []]; simpl; try discriminate; auto.
  - intros Hint. revert Hdigit Hint.
    destruct c as [[] [] [] [] [] [] [] []];
      intros Hdigit; try (vm_compute in Hdigit; discriminate);
      simpl; try discriminate.
    all: unfold parseInt10; simpl; intros Hint.
    all: destruct (Spec.digits_only None text) as [m|] eqn:Hdigits;
      [|discriminate].
    all: rewrite (digits_only_read _ _ _ Hdigits); exact Hint.
Qed.

Lemma defaultGetRetryAfterMs_selects (failure : JsValue) (ms : Z) :
  defaultGetRetryAfterMs failure = Some ms
  <-> Spec.selects_retry_after failure ms.
Proof.
  unfold Spec.selects_retry_after.
  destruct failure as [| |b|n|s|error props|props];
    try (split; [|intros (?&?&?&?&?&?&?&_); discriminate]).
  1-2, 4-5, 7: unfold defaultGetRetryAfterMs; simpl;
    rewrite ?orb_true_r; simpl; discriminate.
  1: unfold defaultGetRetryAfterMs; destruct b; discriminate.
  unfold defaultGetRetryAfterMs. simpl.
  destruct (props !! "headers") as [[| |b|n|s|herror headers|hprops]|] eqn:Hh;
    simpl; rewrite ?andb_false_r;
    try (split; [discriminate|];
         intros (?&?&?&?&?&?&[= <- <-]&Hh'&_); congruence).
  rewrite hint_of_entry_spec. split.
  - intros (seconds & Hread & ->).
    apply retry_after_entry_spec in Hread as (entry & Hentry & Hread).
    exists error, props, herror, headers, entry, seconds. auto.
  - intros (error' & props' & herror' & headers' & entry & seconds
            & [= <- <-] & Hh' & Hentry & Hread & ->).
    rewrite Hh in Hh'. injection Hh' as <- <-.
    exists seconds. split; [|reflexivity].
    apply retry_after_entry_spec. eauto.
Qed.

(** C6, as the code has it.  The default extractor returns a hint
    exactly when the failure is an object whose [headers] is an object
    in which ["retry-after"] -- or ["Retry-After"], but only when
    ["retry-after"] is missing, [null] or [undefined] -- holds a number,
    or a string at whose start [Number.parseInt] reads a base-10 integer
    (every base-10 integer string is read as the integer it denotes);
    the hint is 1000 times that number.  With [maxDelayMs = 30000], a
    failure with header [retry-after: "5"] is followed by a delay of
    5000 ms at every attempt index at which it is retried. *)
Theorem defaultGetRetryAfterMs_spec :
  (forall failure ms,
     defaultGetRetryAfterMs failure = Some ms
     <-> Spec.selects_retry_after failure ms)
  /\ (forall text n,
        Spec.integer_string text = Some n -> parseInt10 text = Some n)
  /\ (forall (T W : Type) (fn : W -> Settled T * W) (options : RetryOptions)
        (w : W) (i : nat),
        getRetryAfterMs options = None ->
        maxDelayMs_of options = 30000 ->
        settlement fn i w = Rejected (Samples.retry_after (JsString "5")) ->
        (i < length (timers (snd (withRetry fn options (start w)))))%nat ->
        timers (snd (withRetry fn options (start w))) !! i = Some 5000).
Proof.
  split; [exact defaultGetRetryAfterMs_selects|].
  split; [exact parseInt10_integer_string|].
  intros T W fn options w i Hdefault Hcap Hfailure Hretried.
  destruct (lookup_lt_is_Some_2 _ _ Hretried) as [d Hd]. rewrite Hd. f_equal.
  destruct (withRetry_trace fn options w)
    as (delays & _ & <- & _ & _ & _ & _ & Hdelays).
  destruct (Hdelays _ _ Hd) as (error & Hset & _ & ->).
  rewrite Hfailure in Hset. injection Hset as <-.
  unfold getRetryAfterMs_of. rewrite Hdefault, Hcap. reflexivity.
Qed.

(** The specification's reading of C6 fails in both directions: the
    string ["5.5"] is not a base-10 integer string, yet a hint of 5000 ms
    is returned for it; and a ["retry-after"] entry that cannot be read
    hides a numeric ["Retry-After"] entry, so that no hint is returned. *)
Lemma defaultGetRetryAfterMs_not_as_specified :
  ~ Spec.hint_as_specified Samples.fractional_retry_after
  /\ ~ Spec.hint_as_specified Samples.shadowed_retry_after.
Proof.
  split; intros Hclaim.
  - destruct (proj1 (Hclaim 5000) eq_refl)
      as (error & props & herror & headers & key & entry & seconds
          & Hfailure & Hheaders & Hkey & Hentry & Hseconds & _).
    unfold Samples.fractional_retry_after, Samples.obj in Hfailure.
    injection Hfailure as <- <-.
    vm_compute in Hheaders. injection Hheaders as <- <-.
    repeat (apply elem_of_cons in Hkey as [->|Hkey]);
      [| |inversion Hkey]; vm_compute in Hentry; [|discriminate].
    injection Hentry as <-.
    destruct Hseconds as [Hnumber|(text & [= <-] & Hinteger)];
      [discriminate|]. vm_compute in Hinteger. discriminate.
  - assert (Hcarries :
      Spec.carries_retry_after Samples.shadowed_retry_after 5000).
    { eexists None, _, None, _, "Retry-After"%string, (JsNumber 5), 5.
      split; [reflexivity|]. split; [vm_compute; reflexivity|].
      split; [set_solver|]. split; [vm_compute; reflexivity|].
      split; [left|]; reflexivity. }
    apply Hclaim in Hcarries. vm_compute in Hcarries. discriminate.
Qed.

(** C10.  The delay has no lower bound of zero.  For a failure whose
    [headers] hold a [retry-after] entry that is a number [seconds <= 0],
    or a string read as such a number, the default extractor returns
    [seconds * 1000], and (when that does not exceed [maxDelayMs]) this
    value itself is the delay slept: a negative hint is not raised to
    zero, and a hint of zero is used as a zero delay, not treated as
    absent. *)
Theorem retry_after_not_clamped_below (entry : JsValue) (seconds : Z) :
  Spec.seconds_read entry seconds ->
  seconds <= 0 ->
  defaultGetRetryAfterMs (Samples.retry_after entry) = Some (seconds * 1000)
  /\ seconds * 1000 <= 0
  /\ forall (T W : Type) (fn : W -> Settled T * W) (options : RetryOptions)
       (w w' : W),
       isRetryable options = None ->
       getRetryAfterMs options = None ->
       1 <= maxRetries_of options ->
       seconds * 1000 <= maxDelayMs_of options ->
       fn w = (Rejected (Samples.retry_after entry), w') ->
       timers (snd (withRetry fn options (start w))) !! O
       = Some (seconds * 1000).
Proof.
  intros Hread Hneg.
  assert (Hhint : defaultGetRetryAfterMs (Samples.retry_after entry)
                  = Some (seconds * 1000)).
  { apply defaultGetRetryAfterMs_selects.
    eexists None, _, None, _, entry, seconds.
    split; [reflexivity|]. split; [vm_compute; reflexivity|].
    split; [left; split; [vm_compute; reflexivity|]|].
    - destruct Hread as [->|(text & -> & _)]; reflexivity.
    - split; [exact Hread | reflexivity]. }
  split; [exact Hhint|]. split; [lia|].
  intros T W fn options w w' Hpredicate Hextractor Hbudget Hcap Hfn.
  rewrite (withRetry_first_delay fn options w _ w' Hbudget Hfn).
  - unfold getRetryAfterMs_of. rewrite Hextractor. simpl. rewrite Hhint.
    simpl. f_equal. lia.
  - unfold isRetryable_of. rewrite Hpredicate. vm_compute. reflexivity.
Qed.

(** ** The properties at concrete runs *)

Module Witness.
Import Samples.

(** Three failures in a row, with a budget of two retries: the failure
    of the third invocation is propagated. *)
Lemma withRetry_exhausts_budget_witness :
  exists error final,
    settlement (scripted (T := nat)
                  [Rejected (status 500); Rejected (status 502)] (status 503))
      2 O = Rejected error
    /\ withRetry (scripted (T := nat)
                    [Rejected (status 500); Rejected (status 502)] (status 503))
         (retries 2) (start O) = (Rejected error, final)
    /\ invocations final = 3%nat
    /\ length (stderr final) = 2%nat
    /\ length (timers final) = 2%nat.
Proof.
  refine (proj2 (withRetry_exhausts_budget
                   (scripted (T := nat)
                      [Rejected (status 500); Rejected (status 502)]
                      (status 503))
                   (retries 2) 2 O _) _).
  - reflexivity.
  - intros k Hk. destruct k as [|[|[|k]]]; [| | |lia].
    + exists (status 500). split; vm_compute; reflexivity.
    + exists (status 502). split; vm_compute; reflexivity.
    + exists (status 503). split; vm_compute; reflexivity.
Defined.

(** A 404 is not retryable for the default predicate. *)
Lemma withRetry_non_retryable_witness :
  0 <= maxRetries_of no_options
  /\ defaultIsRetryable (status 404) = false
  /\ withRetry (scripted (T := nat) [] (status 404)) no_options (start O)
     = (Rejected (status 404), mkRuntime 1%nat 1 [] []).
Proof.
  split; [vm_compute; discriminate|]. split; [vm_compute; reflexivity|].
  apply (withRetry_non_retryable
           (scripted (T := nat) [] (status 404)) no_options O (status 404) 1%nat).
  - vm_compute. discriminate.
  - reflexivity.
  - vm_compute. reflexivity.
Defined.

(** The second retry follows a failure with [retry-after: "5"]. *)
Lemma withRetry_delay_witness :
  timers (snd (withRetry
                 (scripted (T := nat) [Rejected (status 503)]
                    (retry_after (JsString "5")))
                 (retries 3) (start O))) !! 1%nat = Some 5000
  /\ exists error,
       settlement (scripted (T := nat) [Rejected (status 503)]
                     (retry_after (JsString "5"))) 1 O = Rejected error
       /\ isRetryable_of (retries 3) error = true
       /\ (forall h, getRetryAfterMs_of (retries 3) error = Some h ->
             5000 = Z.min h (maxDelayMs_of (retries 3))).
Proof.
  split; [vm_compute; reflexivity|].
  destruct (proj2 (withRetry_delay
                     (scripted (T := nat) [Rejected (status 503)]
                        (retry_after (JsString "5")))
                     (retries 3) O) 1%nat 5000)
    as (error & Hset & Hyes & Hhint & _).
  - vm_compute. reflexivity.
  - exists error. auto.
Defined.

(** Default options, no hints: the second delay is 2000 ms. *)
Lemma withRetry_backoff_sequence_witness :
  timers (snd (withRetry (scripted (T := nat) [] (status 503)) no_options
                 (start O))) !! 1%nat
  = Some (1000 * 2 ^ 1).
Proof.
  apply (withRetry_backoff_sequence
           (scripted (T := nat) [] (status 503)) no_options 2 O).
  - vm_compute. lia.
  - intros error Hset. vm_compute in Hset. injection Hset as <-.
    vm_compute. reflexivity.
  - vm_compute. discriminate.
Defined.

Lemma defaultIsRetryable_spec_witness :
  defaultIsRetryable (status 429) = true
  /\ defaultIsRetryable (JsObject (Some "Socket HANG up"%string) ∅) = true.
Proof.
  split; apply defaultIsRetryable_spec.
  - left. eexists None, _, 429. split; [reflexivity|].
    split; [set_solver|]. left. vm_compute. reflexivity.
  - right. eexists _, _, "socket hang up"%string. split; [reflexivity|].
    split; [set_solver|]. exists EmptyString, EmptyString. reflexivity.
Defined.

(** [retry-after: "5"] after the third failure as after any other. *)
Lemma defaultGetRetryAfterMs_spec_witness :
  defaultGetRetryAfterMs (retry_after (JsString "5")) = Some 5000
  /\ timers (snd (withRetry
                    (scripted (T := nat) [] (retry_after (JsString "5")))
                    no_options (start O))) !! 3%nat = Some 5000.
Proof.
  split; [vm_compute; reflexivity|].
  apply (proj2 (proj2 defaultGetRetryAfterMs_spec) nat nat
           (scripted (T := nat) [] (retry_after (JsString "5")))
           no_options O 3%nat).
  - reflexivity.
  - reflexivity.
  - vm_compute. reflexivity.
  - vm_compute. lia.
Defined.

Lemma withRetry_first_success_witness :
  0 <= maxRetries_of no_options
  /\ withRetry (scripted [Fulfilled 7%nat] JsNull) no_options (start O)
     = (Fulfilled 7%nat, mkRuntime 1%nat 1 [] []).
Proof.
  split; [vm_compute; discriminate|].
  apply (withRetry_first_success
           (scripted [Fulfilled 7%nat] JsNull) no_options O 7%nat 1%nat).
  - vm_compute. discriminate.
  - reflexivity.
Defined.

Lemma withRetry_negative_budget_witness :
  maxRetries_of (retries (-1)) < 0
  /\ withRetry (scripted (T := nat) [] (status 503)) (retries (-1)) (start O)
     = (Rejected JsUndefined, start O).
Proof.
  split; [vm_compute; reflexivity|].
  refine (proj1 (withRetry_negative_budget
                   (scripted (T := nat) [] (status 503)) (retries (-1)) O _)).
  vm_compute. reflexivity.
Defined.

(** A thrown string that names a timeout. *)
Lemma defaultIsRetryable_non_object_witness :
  defaultIsRetryable (JsString "connection timeout") = false
  /\ withRetry (scripted (T := nat) [] (JsString "connection timeout"))
       no_options (start O)
     = (Rejected (JsString "connection timeout"), mkRuntime 1%nat 1 [] []).
Proof.
  destruct (defaultIsRetryable_non_object (JsString "connection timeout"))
    as [Hreject Hrun]; [reflexivity | reflexivity |].
  split; [exact Hreject|].
  apply (Hrun nat nat (scripted (T := nat) [] (JsString "connection timeout"))
           no_options O 1%nat).
  - reflexivity.
  - vm_compute. discriminate.
  - reflexivity.
Defined.

(** [retry-after: -5]: the delay slept is -5000 ms. *)
Lemma retry_after_not_clamped_below_witness :
  defaultGetRetryAfterMs (retry_after (JsNumber (-5))) = Some (-5000)
  /\ timers (snd (withRetry
                    (scripted [Rejected (retry_after (JsNumber (-5)));
                               Fulfilled 3%nat] JsNull)
                    no_options (start O))) !! O = Some (-5000).
Proof.
  destruct (retry_after_not_clamped_below (JsNumber (-5)) (-5))
    as (Hhint & _ & Hrun); [left; reflexivity | lia |].
  split; [exact Hhint|].
  apply (Hrun nat nat
           (scripted [Rejected (retry_after (JsNumber (-5))); Fulfilled 3%nat]
              JsNull)
           no_options O 1%nat).
  - reflexivity.
  - reflexivity.
  - vm_compute. discriminate.
  - vm_compute. discriminate.
  - reflexivity.
Defined.

End Witness.

(** ** The scenarios of the specification *)

Module Scenarios.
Import Samples.

(** Two 503 failures, then success: delays 1000 and 2000, two lines. *)
Example scenario_1 :
  withRetry (scripted [Rejected (status 503); Rejected (status 503);
                       Fulfilled 7%nat] JsNull)
    no_options (start O)
  = (Fulfilled 7%nat,
     mkRuntime 3%nat 3
       ["Transient error, retrying in 1000ms (attempt 1/10)";
        "Transient error, retrying in 2000ms (attempt 2/10)"]%string
       [1000; 2000]).
Proof. vm_compute. reflexivity. Qed.

(** Always 404: one invocation, no line. *)
Example scenario_2 :
  withRetry (scripted (T := nat) [] (status 404)) no_options (start O)
  = (Rejected (status 404), mkRuntime 1%nat 1 [] []).
Proof. vm_compute. reflexivity. Qed.

(** Always 429 with [maxRetries = 2]: three invocations, two lines. *)
Example scenario_3 :
  withRetry (scripted (T := nat) [] (status 429)) (retries 2) (start O)
  = (Rejected (status 429),
     mkRuntime 3%nat 3
       ["Transient error, retrying in 1000ms (attempt 1/2)";
        "Transient error, retrying in 2000ms (attempt 2/2)"]%string
       [1000; 2000]).
Proof. vm_compute. reflexivity. Qed.

(** [retry-after: "5"] with status 503: every delay is 5000 ms. *)
Example scenario_4 :
  timers (snd (withRetry
                 (scripted (T := nat) [] (retry_after (JsString "5")))
                 (retries 3) (start O)))
  = [5000; 5000; 5000].
Proof. vm_compute. reflexivity. Qed.

(** A label is put in front of the line; an empty label is not. *)
Example labelled_line :
  stderr (snd (withRetry
                 (scripted [Rejected (status 503); Fulfilled 7%nat] JsNull)
                 {| maxRetries := Some 1; initialDelayMs := Some 250;
                    maxDelayMs := None; isRetryable := None;
                    getRetryAfterMs := None; label := Some "MyAPI"%string |}
                 (start O)))
  = ["MyAPI: Transient error, retrying in 250ms (attempt 1/1)"%string].
Proof. vm_compute. reflexivity. Qed.

(** The white space and the sign [Number.parseInt] accepts, and the tail
    it ignores. *)
Example parseInt10_examples :
  parseInt10 "120" = Some 120
  /\ parseInt10 "  -12px" = Some (-12)
  /\ parseInt10 "+7" = Some 7
  /\ parseInt10 "5.5" = Some 5
  /\ parseInt10 "Wed, 21 Oct 2015 07:28:00 GMT" = None
  /\ parseInt10 EmptyString = None.
Proof. repeat split; reflexivity. Qed.

End Scenarios.

(** * Further properties of [withRetry] *)

Section RunFacts.
Context {T W : Type}.
Variable fn : W -> Settled T * W.
Variables maxRetries initialDelayMs maxDelayMs : Z.
Variable isRetryable : JsValue -> bool.
Variable getRetryAfterMs : JsValue -> option Z.
Variable label : option string.

#[local] Abbreviation run :=
  (retryLoop fn maxRetries initialDelayMs maxDelayMs isRetryable
     getRetryAfterMs label).

Lemma settlement_step (i : nat) (w w' : W) (outcome : Settled T) :
  fn w = (outcome, w') -> settlement fn (S i) w = settlement fn i w'.
Proof. unfold settlement. simpl. intros ->. reflexivity. Qed.

Lemma worldAfter_step (i : nat) (w w' : W) (outcome : Settled T) :
  fn w = (outcome, w') -> worldAfter fn (S i) w = worldAfter fn i w'.
Proof. simpl. intros ->. reflexivity. Qed.

(** A run from iteration [attempt], described in full: it makes [k]
    retries, as many as the budget lets it until an invocation settles
    otherwise than by a retryable rejection, and settles as its last
    invocation did. *)
Lemma retryLoop_run (n : nat) : forall attempt lastError rt,
  attempt <= maxRetries ->
  (Z.to_nat (maxRetries - attempt) <= n)%nat ->
  exists (k : nat) (delays : list Z) (lines : list string),
    Z.of_nat k <= maxRetries - attempt
    /\ length delays = k
    /\ length lines = k
    /\ timers (snd (run attempt lastError rt)) = timers rt ++ delays
    /\ stderr (snd (run attempt lastError rt)) = stderr rt ++ lines
    /\ invocations (snd (run attempt lastError rt))
       = (invocations rt + S k)%nat
    /\ world (snd (run attempt lastError rt)) = worldAfter fn (S k) (world rt)
    /\ fst (run attempt lastError rt) = settlement fn k (world rt)
    /\ (Z.of_nat k = maxRetries - attempt
        \/ retryable_rejection isRetryable (settlement fn k (world rt)) = false)
    /\ forall i, (i < k)%nat ->
         exists error,
           settlement fn i (world rt) = Rejected error
           /\ isRetryable error = true
           /\ delays !! i
              = Some (delay_of initialDelayMs maxDelayMs
                        (getRetryAfterMs error) (attempt + Z.of_nat i))
           /\ lines !! i
              = Some (retry_message (label_prefix label)
                        (delay_of initialDelayMs maxDelayMs
                           (getRetryAfterMs error) (attempt + Z.of_nat i))
                        (attempt + Z.of_nat i + 1) maxRetries).
Proof.
  assert (Hstop : forall attempt lastError rt outcome w,
    fn (world rt) = (outcome, w) ->
    run attempt lastError rt
    = (outcome, mkRuntime w (S (invocations rt)) (stderr rt) (timers rt)) ->
    attempt <= maxRetries ->
    (attempt = maxRetries \/ retryable_rejection isRetryable outcome = false) ->
    exists (k : nat) (delays : list Z) (lines : list string),
      Z.of_nat k <= maxRetries - attempt
      /\ length delays = k
      /\ length lines = k
      /\ timers (snd (run attempt lastError rt)) = timers rt ++ delays
      /\ stderr (snd (run attempt lastError rt)) = stderr rt ++ lines
      /\ invocations (snd (run attempt lastError rt))
         = (invocations rt + S k)%nat
      /\ world (snd (run attempt lastError rt))
         = worldAfter fn (S k) (world rt)
      /\ fst (run attempt lastError rt) = settlement fn k (world rt)
      /\ (Z.of_nat k = maxRetries - attempt
          \/ retryable_rejection isRetryable (settlement fn k (world rt))
             = false)
      /\ forall i, (i < k)%nat ->
           exists error,
             settlement fn i (world rt) = Rejected error
             /\ isRetryable error = true
             /\ delays !! i
                = Some (delay_of initialDelayMs maxDelayMs
                          (getRetryAfterMs error) (attempt + Z.of_nat i))
             /\ lines !! i
                = Some (retry_message (label_prefix label)
                          (delay_of initialDelayMs maxDelayMs
                             (getRetryAfterMs error) (attempt + Z.of_nat i))
                          (attempt + Z.of_nat i + 1) maxRetries)).
  { intros attempt lastError rt outcome w Hfn Hrun Hin Hwhy.
    exists O, [], []. rewrite Hrun. unfold settlement. simpl.
    rewrite Hfn, !app_nil_r. simpl.
    repeat split; try lia.
    destruct Hwhy as [->|Hwhy]; [left; lia | right; exact Hwhy]. }
  induction n as [|n IH]; intros attempt lastError rt Hin Hn.
  - assert (attempt = maxRetries) as -> by lia.
    destruct (fn (world rt)) as [outcome w] eqn:Hfn.
    apply (Hstop _ _ _ outcome w Hfn); [|lia|left; reflexivity].
    destruct outcome as [value|error].
    + apply retryLoop_fulfilled; [lia | exact Hfn].
    + apply retryLoop_exhausted. exact Hfn.
  - destruct (fn (world rt)) as [[value|error] w] eqn:Hfn.
    { apply (Hstop _ _ _ _ w Hfn); [|lia|right; reflexivity].
      apply retryLoop_fulfilled; [lia | exact Hfn]. }
    destruct (isRetryable error) eqn:Hretryable.
    2:{ apply (Hstop _ _ _ _ w Hfn); [|lia|right; exact Hretryable].
        apply retryLoop_fatal; [lia | exact Hfn | exact Hretryable]. }
    destruct (Z.eq_dec attempt maxRetries) as [->|Hne].
    { apply (Hstop _ _ _ _ w Hfn); [|lia|left; reflexivity].
      apply retryLoop_exhausted. exact Hfn. }
    assert (Hlt : attempt < maxRetries) by lia.
    rewrite (retryLoop_retry _ _ _ _ _ _ _ _ _ _ _ _ Hlt Hfn Hretryable).
    match goal with
    | |- context [retryLoop _ _ _ _ _ _ _ (attempt + 1) error ?r] =>
        set (rt1 := r)
    end.
    destruct (IH (attempt + 1) error rt1 ltac:(lia) ltac:(lia))
      as (k & delays & lines & Hk & Hdelays & Hlines & Htimers & Hstderr
          & Hcalls & Hworld & Hresult & Hwhy & Hbefore).
    exists (S k),
      (delay_of initialDelayMs maxDelayMs (getRetryAfterMs error) attempt
         :: delays),
      (retry_message (label_prefix label)
         (delay_of initialDelayMs maxDelayMs (getRetryAfterMs error) attempt)
         (attempt + 1) maxRetries :: lines).
    rewrite Htimers, Hstderr, Hcalls, Hworld, Hresult. subst rt1. simpl world.
    rewrite (settlement_step _ _ _ _ Hfn), (worldAfter_step _ _ _ _ Hfn).
    unfold backed_off. simpl. rewrite <- !app_assoc. simpl.
    repeat split; try lia.
    + destruct Hwhy as [Hwhy|Hwhy]; [left; lia | right; exact Hwhy].
    + intros [|i] Hi.
      * exists error. unfold settlement. simpl. rewrite Hfn, !Z.add_0_r. auto.
      * destruct (Hbefore i ltac:(lia)) as (e & Hset & Hyes & Hd & Hl).
        exists e. rewrite (settlement_step _ _ _ _ Hfn).
        replace (attempt + Z.of_nat (S i))
          with (attempt + 1 + Z.of_nat i) by lia.
        auto.
Qed.

End RunFacts.

Section LabelFacts.
Context {T W : Type}.
Variable fn : W -> Settled T * W.
Variables maxRetries initialDelayMs maxDelayMs : Z.
Variable isRetryable : JsValue -> bool.
Variable getRetryAfterMs : JsValue -> option Z.

#[local] Abbreviation run_as :=
  (retryLoop fn maxRetries initialDelayMs maxDelayMs isRetryable
     getRetryAfterMs).

Lemma backed_off_stderr (label : option string) (attempt : Z)
  (error : JsValue) (rt : Runtime W) :
  stderr (backed_off maxRetries initialDelayMs maxDelayMs getRetryAfterMs
            label attempt error rt)
  = stderr rt
    ++ [retry_message (label_prefix label)
          (delay_of initialDelayMs maxDelayMs (getRetryAfterMs error) attempt)
          (attempt + 1) maxRetries].
Proof. reflexivity. Qed.

(** Two runs that differ in the label (and in what was on [stderr]
    before) go through the same steps. *)
Lemma retryLoop_label (label label' : option string) (n : nat) :
  forall attempt lastError rt rt',
  (Z.to_nat (maxRetries + 1 - attempt) <= n)%nat ->
  world rt = world rt' ->
  invocations rt = invocations rt' ->
  timers rt = timers rt' ->
  fst (run_as label attempt lastError rt)
  = fst (run_as label' attempt lastError rt')
  /\ world (snd (run_as label attempt lastError rt))
     = world (snd (run_as label' attempt lastError rt'))
  /\ invocations (snd (run_as label attempt lastError rt))
     = invocations (snd (run_as label' attempt lastError rt'))
  /\ timers (snd (run_as label attempt lastError rt))
     = timers (snd (run_as label' attempt lastError rt'))
  /\ (label_prefix label = label_prefix label' ->
      stderr rt = stderr rt' ->
      stderr (snd (run_as label attempt lastError rt))
      = stderr (snd (run_as label' attempt lastError rt'))).
Proof.
  induction n as [|n IH]; intros attempt lastError rt rt' Hn Hworld Hcalls
    Htimers.
  - rewrite !retryLoop_exit by lia. simpl. auto.
  - destruct (Z.lt_ge_cases maxRetries attempt) as [Hout|Hin].
    { rewrite !retryLoop_exit by lia. simpl. auto. }
    destruct (fn (world rt)) as [[value|error] w] eqn:Hfn;
      assert (Hfn' := Hfn); rewrite Hworld in Hfn'.
    { rewrite (retryLoop_fulfilled _ _ _ _ _ _ _ _ _ rt _ _ Hin Hfn),
        (retryLoop_fulfilled _ _ _ _ _ _ _ _ _ rt' _ _ Hin Hfn').
      simpl. repeat split; auto. }
    destruct (isRetryable error) eqn:Hretryable.
    2:{ rewrite (retryLoop_fatal _ _ _ _ _ _ _ _ _ rt _ _ Hin Hfn Hretryable),
          (retryLoop_fatal _ _ _ _ _ _ _ _ _ rt' _ _ Hin Hfn' Hretryable).
        simpl. repeat split; auto. }
    destruct (Z.eq_dec attempt maxRetries) as [->|Hne].
    { rewrite (retryLoop_exhausted _ _ _ _ _ _ _ _ rt _ _ Hfn),
        (retryLoop_exhausted _ _ _ _ _ _ _ _ rt' _ _ Hfn').
      simpl. repeat split; auto. }
    assert (Hlt : attempt < maxRetries) by lia.
    rewrite (retryLoop_retry _ _ _ _ _ _ _ _ _ rt _ _ Hlt Hfn Hretryable),
      (retryLoop_retry _ _ _ _ _ _ _ _ _ rt' _ _ Hlt Hfn' Hretryable).
    match goal with
    | |- context [retryLoop _ _ _ _ _ _ label (attempt + 1) error ?r] =>
        set (rt1 := r)
    end.
    match goal with
    | |- context [retryLoop _ _ _ _ _ _ label' (attempt + 1) error ?r] =>
        set (rt1' := r)
    end.
    destruct (IH (attempt + 1) error rt1 rt1' ltac:(lia))
      as (Hresult & Hw & Hc & Ht & Hlines).
    + reflexivity.
    + subst rt1 rt1'. simpl. congruence.
    + subst rt1 rt1'. simpl. congruence.
    + repeat split; auto. intros Hprefix Hstderr. apply Hlines; [exact Hprefix|].
      subst rt1 rt1'. rewrite !backed_off_stderr, Hprefix. simpl.
      rewrite Hstderr. reflexivity.
Qed.

End LabelFacts.

Lemma decisive_index_unique (goes_on : nat -> bool) (N k1 k2 : nat) :
  (k1 <= N)%nat -> (k2 <= N)%nat ->
  (k1 = N \/ goes_on k1 = false) ->
  (k2 = N \/ goes_on k2 = false) ->
  (forall i, (i < k1)%nat -> goes_on i = true) ->
  (forall i, (i < k2)%nat -> goes_on i = true) ->
  k1 = k2.
Proof.
  intros H1 H2 Hstop1 Hstop2 Hbefore1 Hbefore2.
  destruct (Nat.lt_trichotomy k1 k2) as [Hlt|[Heq|Hgt]]; [|exact Heq|].
  - specialize (Hbefore2 k1 Hlt). destruct Hstop1; [lia | congruence].
  - specialize (Hbefore1 k2 Hgt). destruct Hstop2; [lia | congruence].
Qed.

Lemma total_delay_bound (M : Z) (delays : list Z) :
  (forall (i : nat) (d : Z), delays !! i = Some d -> d <= M) ->
  total_delay delays <= Z.of_nat (length delays) * M.
Proof.
  induction delays as [|d delays IH]; intros Hall; simpl; [lia|].
  assert (Hd : d <= M) by (apply (Hall O); reflexivity).
  assert (Hrest : total_delay delays <= Z.of_nat (length delays) * M).
  { apply IH. intros i d' Hi. apply (Hall (S i)). exact Hi. }
  unfold total_delay in *. lia.
Qed.

Section FurtherWithRetry.
Context {T W : Type}.
Variable fn : W -> Settled T * W.
Variable options : RetryOptions.

(** A run of [withRetry] under a non-negative budget, in full. *)
Lemma withRetry_run w :
  0 <= maxRetries_of options ->
  exists (k : nat) (delays : list Z) (lines : list string),
    withRetry fn options (start w)
    = (settlement fn k w, mkRuntime (worldAfter fn (S k) w) (S k) lines delays)
    /\ Z.of_nat k <= maxRetries_of options
    /\ length delays = k
    /\ length lines = k
    /\ (Z.of_nat k = maxRetries_of options
        \/ retryable_rejection (isRetryable_of options) (settlement fn k w)
           = false)
    /\ forall i, (i < k)%nat ->
         exists error,
           settlement fn i w = Rejected error
           /\ isRetryable_of options error = true
           /\ delays !! i
              = Some (delay_of (initialDelayMs_of options)
                        (maxDelayMs_of options)
                        (getRetryAfterMs_of options error) (Z.of_nat i))
           /\ lines !! i
              = Some (retry_message (label_prefix (label options))
                        (delay_of (initialDelayMs_of options)
                           (maxDelayMs_of options)
                           (getRetryAfterMs_of options error) (Z.of_nat i))
                        (Z.of_nat i + 1) (maxRetries_of options)).
Proof.
  intros Hbudget. rewrite withRetry_is_loop.
  destruct (retryLoop_run fn (maxRetries_of options)
              (initialDelayMs_of options) (maxDelayMs_of options)
              (isRetryable_of options) (getRetryAfterMs_of options)
              (label options) _ 0 JsUndefined (start w) Hbudget
              (Nat.le_refl _))
    as (k & delays & lines & Hk & Hdelays & Hlines & Htimers & Hstderr
        & Hcalls & Hworld & Hresult & Hwhy & Hbefore).
  exists k, delays, lines.
  destruct (retryLoop _ _ _ _ _ _ _ _ _ _) as [result [w' calls err slept]].
  simpl in *. rewrite Z.sub_0_r in *. subst.
  repeat split; auto.
Qed.

End FurtherWithRetry.

Section FurtherTheorems.
Context {T W : Type}.
Variable fn : W -> Settled T * W.
Variable options : RetryOptions.

(** X1.  Under a non-negative budget [withRetry] settles exactly as the
    last invocation it made: no failure is swallowed, replaced or
    invented.  The invocations are made one after the other, each in the
    world the previous one left, and every invocation before the last
    was rejected with a failure the predicate accepts. *)
Theorem withRetry_settles_as_last_invocation w :
  0 <= maxRetries_of options ->
  exists k : nat,
    invocations (snd (withRetry fn options (start w))) = S k
    /\ fst (withRetry fn options (start w)) = settlement fn k w
    /\ world (snd (withRetry fn options (start w))) = worldAfter fn (S k) w
    /\ forall i, (i < k)%nat ->
         exists error, settlement fn i w = Rejected error
                       /\ isRetryable_of options error = true.
Proof.
  intros Hbudget.
  destruct (withRetry_run fn options w Hbudget)
    as (k & delays & lines & -> & _ & _ & _ & _ & Hbefore).
  exists k. simpl. repeat split.
  intros i Hi. destruct (Hbefore i Hi) as (error & Hset & Hyes & _).
  exists error. auto.
Qed.

(** X2.  [withRetry] stops at the first invocation that does not end in
    a retryable rejection: if the first [k] invocations are rejected
    retryably, [k] is within the budget, and invocation [k + 1] succeeds
    or is rejected with a failure the predicate refuses, the result is
    the settlement of invocation [k + 1], after exactly [k + 1]
    invocations, [k] lines and [k] delays. *)
Theorem withRetry_stops_at_first_decisive (k : nat) w :
  Z.of_nat k <= maxRetries_of options ->
  (forall i, (i < k)%nat ->
     retryable_rejection (isRetryable_of options) (settlement fn i w) = true) ->
  retryable_rejection (isRetryable_of options) (settlement fn k w) = false ->
  exists (delays : list Z) (lines : list string),
    withRetry fn options (start w)
    = (settlement fn k w, mkRuntime (worldAfter fn (S k) w) (S k) lines delays)
    /\ length delays = k
    /\ length lines = k.
Proof.
  intros Hk Hbefore Hdecisive.
  destruct (withRetry_run fn options w ltac:(lia))
    as (k' & delays & lines & Hrun & Hk' & Hdelays & Hlines & Hwhy & Hretried).
  assert (k' = k) as ->.
  { apply (decisive_index_unique
             (fun i => retryable_rejection (isRetryable_of options)
                         (settlement fn i w))
             (Z.to_nat (maxRetries_of options))); try lia; auto.
    - destruct Hwhy as [Hwhy|Hwhy]; [left; lia | right; exact Hwhy].
    - intros i Hi. destruct (Hretried i Hi) as (error & -> & Hyes & _).
      exact Hyes. }
  exists delays, lines. auto.
Qed.

(** X3.  There are as many lines on [stderr] as delays slept, and line
    [i] reports the delay slept after it: it is the message built from
    the label prefix, that very delay, the attempt number [i + 1] and
    [maxRetries]. *)
Theorem withRetry_lines_report_delays w :
  length (stderr (snd (withRetry fn options (start w))))
  = length (timers (snd (withRetry fn options (start w))))
  /\ forall (i : nat) (d : Z),
       timers (snd (withRetry fn options (start w))) !! i = Some d ->
       stderr (snd (withRetry fn options (start w))) !! i
       = Some (retry_message (label_prefix (label options)) d
                 (Z.of_nat i + 1) (maxRetries_of options)).
Proof.
  destruct (Z.lt_ge_cases (maxRetries_of options) 0) as [Hneg|Hbudget].
  - rewrite withRetry_is_loop, retryLoop_exit by lia. simpl.
    split; [reflexivity | intros i d Hi; discriminate].
  - destruct (withRetry_run fn options w Hbudget)
      as (k & delays & lines & -> & _ & Hdelays & Hlines & _ & Hbefore).
    simpl. split; [congruence|]. intros i d Hi.
    assert (Hlt : (i < k)%nat).
    { rewrite <- Hdelays. apply lookup_lt_is_Some. eauto. }
    destruct (Hbefore i Hlt) as (error & _ & _ & Hd & Hl).
    rewrite Hl. congruence.
Qed.

(** X4.  No delay exceeds [maxDelayMs]; and when [initialDelayMs],
    [maxDelayMs] and every hint the extractor gives for a failure of the
    operation are non-negative, no delay is negative. *)
Theorem withRetry_delays_within_bounds w :
  (forall (i : nat) (d : Z),
     timers (snd (withRetry fn options (start w))) !! i = Some d ->
     d <= maxDelayMs_of options)
  /\ (0 <= initialDelayMs_of options ->
      0 <= maxDelayMs_of options ->
      (forall (i : nat) error h,
         settlement fn i w = Rejected error ->
         getRetryAfterMs_of options error = Some h -> 0 <= h) ->
      forall (i : nat) (d : Z),
        timers (snd (withRetry fn options (start w))) !! i = Some d ->
        0 <= d).
Proof.
  destruct (withRetry_trace fn options w)
    as (delays & _ & <- & _ & _ & _ & _ & Hdelays).
  split.
  - intros i d Hi. destruct (Hdelays i d Hi) as (error & _ & _ & ->).
    unfold delay_of. destruct (getRetryAfterMs_of options error); lia.
  - intros Hinitial Hcap Hhints i d Hi.
    destruct (Hdelays i d Hi) as (error & Hset & _ & ->).
    unfold delay_of.
    destruct (getRetryAfterMs_of options error) as [h|] eqn:Hhint.
    + specialize (Hhints i error h Hset Hhint). lia.
    + assert (0 <= 2 ^ Z.of_nat i) by (apply Z.pow_nonneg; lia). nia.
Qed.

(** X5.  Under a non-negative budget and cap, the time slept in all is
    at most [maxRetries * maxDelayMs]. *)
Theorem withRetry_total_delay_bounded w :
  0 <= maxRetries_of options ->
  0 <= maxDelayMs_of options ->
  total_delay (timers (snd (withRetry fn options (start w))))
  <= maxRetries_of options * maxDelayMs_of options.
Proof.
  intros Hbudget Hcap.
  destruct (withRetry_trace fn options w)
    as (delays & _ & <- & _ & _ & _ & Hbound & Hdelays).
  specialize (Hbound Hbudget).
  assert (Hsum : total_delay (timers (snd (withRetry fn options (start w))))
                 <= Z.of_nat (length (timers (snd (withRetry fn options
                                                     (start w)))))
                    * maxDelayMs_of options).
  { apply total_delay_bound. intros i d Hi.
    destruct (Hdelays i d Hi) as (error & _ & _ & ->).
    unfold delay_of. destruct (getRetryAfterMs_of options error); lia. }
  nia.
Qed.

(** X6.  When no failure of the operation carries a retry-after hint
    and [initialDelayMs] is non-negative, the delays never decrease from
    one retry to the next, and once the exponential value has reached
    [maxDelayMs] every later delay is [maxDelayMs]. *)
Theorem withRetry_backoff_monotone w :
  0 <= initialDelayMs_of options ->
  (forall (i : nat) error,
     settlement fn i w = Rejected error ->
     getRetryAfterMs_of options error = None) ->
  (forall (i j : nat) (di dj : Z), (i <= j)%nat ->
     timers (snd (withRetry fn options (start w))) !! i = Some di ->
     timers (snd (withRetry fn options (start w))) !! j = Some dj ->
     di <= dj)
  /\ (forall (i j : nat) (dj : Z), (i <= j)%nat ->
        maxDelayMs_of options <= initialDelayMs_of options * 2 ^ Z.of_nat i ->
        timers (snd (withRetry fn options (start w))) !! j = Some dj ->
        dj = maxDelayMs_of options).
Proof.
  intros Hinitial Hnohint.
  destruct (withRetry_trace fn options w)
    as (delays & _ & <- & _ & _ & _ & _ & Hdelays).
  assert (Hgrow : forall i j : nat, (i <= j)%nat ->
            initialDelayMs_of options * 2 ^ Z.of_nat i
            <= initialDelayMs_of options * 2 ^ Z.of_nat j).
  { intros i j Hij. apply Z.mul_le_mono_nonneg_l; [exact Hinitial|].
    apply Z.pow_le_mono_r; lia. }
  split.
  - intros i j di dj Hij Hi Hj.
    destruct (Hdelays i di Hi) as (ei & Hseti & _ & ->).
    destruct (Hdelays j dj Hj) as (ej & Hsetj & _ & ->).
    rewrite (Hnohint i ei Hseti), (Hnohint j ej Hsetj).
    unfold delay_of. specialize (Hgrow i j Hij). lia.
  - intros i j dj Hij Hreached Hj.
    destruct (Hdelays j dj Hj) as (ej & Hsetj & _ & ->).
    rewrite (Hnohint j ej Hsetj).
    unfold delay_of. specialize (Hgrow i j Hij). lia.
Qed.

(** X7.  With [maxRetries = 0] nothing is retried: the operation is
    invoked once and [withRetry] settles as it did, whether it succeeded
    or failed and whatever the predicate says; nothing is slept or
    logged. *)
Theorem withRetry_zero_budget w :
  maxRetries_of options = 0 ->
  withRetry fn options (start w)
  = (fst (fn w), mkRuntime (snd (fn w)) 1 [] []).
Proof.
  intros Hzero.
  destruct (withRetry_run fn options w ltac:(lia))
    as (k & delays & lines & -> & Hk & Hdelays & Hlines & _).
  assert (k = O) as -> by lia.
  destruct delays; [|discriminate]. destruct lines; [|discriminate].
  reflexivity.
Qed.

(** X8.  The label only shows in the lines written: under any other
    label the result, the invocations made and the delays slept are the
    same; and a label with the same prefix (the empty label, for one,
    against no label) gives the same lines too. *)
Theorem withRetry_label_only_in_lines (text : option string) w :
  fst (withRetry fn (with_label text options) (start w))
  = fst (withRetry fn options (start w))
  /\ world (snd (withRetry fn (with_label text options) (start w)))
     = world (snd (withRetry fn options (start w)))
  /\ invocations (snd (withRetry fn (with_label text options) (start w)))
     = invocations (snd (withRetry fn options (start w)))
  /\ timers (snd (withRetry fn (with_label text options) (start w)))
     = timers (snd (withRetry fn options (start w)))
  /\ (label_prefix text = label_prefix (label options) ->
      withRetry fn (with_label text options) (start w)
      = withRetry fn options (start w)).
Proof.
  rewrite !withRetry_is_loop.
  change (maxRetries_of (with_label text options))
    with (maxRetries_of options).
  change (initialDelayMs_of (with_label text options))
    with (initialDelayMs_of options).
  change (maxDelayMs_of (with_label text options))
    with (maxDelayMs_of options).
  change (isRetryable_of (with_label text options))
    with (isRetryable_of options).
  change (getRetryAfterMs_of (with_label text options))
    with (getRetryAfterMs_of options).
  change (label (with_label text options)) with text.
  destruct (retryLoop_label fn (maxRetries_of options)
              (initialDelayMs_of options) (maxDelayMs_of options)
              (isRetryable_of options) (getRetryAfterMs_of options)
              text (label options) _ 0 JsUndefined (start w) (start w)
              (Nat.le_refl _) eq_refl eq_refl eq_refl)
    as (Hresult & Hworld & Hcalls & Htimers & Hlines).
  repeat split; auto.
  intros Hprefix. specialize (Hlines Hprefix eq_refl).
  destruct (retryLoop _ _ _ _ _ _ text _ _ _) as [r1 [w1 c1 e1 t1]].
  destruct (retryLoop _ _ _ _ _ _ (label options) _ _ _) as [r2 [w2 c2 e2 t2]].
  simpl in *. congruence.
Qed.

End FurtherTheorems.

(** * Further properties of the default helpers *)

Lemma append_assoc_string (a b c : string) :
  ((a +:+ b) +:+ c)%string = (a +:+ b +:+ c)%string.
Proof.
  induction a as [|x a IH]; [reflexivity|].
  rewrite !append_String, IH. reflexivity.
Qed.

Lemma toLowerCase_append (a b : string) :
  toLowerCase (a +:+ b) = (toLowerCase a +:+ toLowerCase b)%string.
Proof.
  induction a as [|x a IH]; [reflexivity|].
  rewrite append_String. simpl. rewrite append_String, IH. reflexivity.
Qed.

Lemma toLowerCase_split (text x y : string) :
  toLowerCase text = (x +:+ y)%string ->
  exists a b, text = (a +:+ b)%string
              /\ toLowerCase a = x /\ toLowerCase b = y.
Proof.
  revert text. induction x as [|c x IH]; intros text Hlower.
  - exists EmptyString, text. auto.
  - destruct text as [|c' text]; [discriminate|].
    rewrite append_String in Hlower. simpl in Hlower.
    injection Hlower as Hc Hrest.
    destruct (IH text Hrest) as (a & b & -> & Ha & Hb).
    exists (String c' a), b. rewrite append_String. simpl.
    repeat split; congruence.
Qed.

(** X9.  The message test of the default predicate does not depend on
    letter case: an [Error] whose message has, anywhere, a stretch that
    lower-cases to one of the six words is retryable whatever else it
    carries; and an [Error] without properties is retryable only if its
    message has such a stretch. *)
Theorem defaultIsRetryable_any_letter_case :
  (forall (before middle after : string) (props : gmap string JsValue),
     toLowerCase middle ∈ Spec.transient_words ->
     defaultIsRetryable
       (JsObject (Some (before +:+ middle +:+ after)%string) props) = true)
  /\ (forall message : string,
        defaultIsRetryable (JsObject (Some message) ∅) = true ->
        exists before middle after : string,
          message = (before +:+ middle +:+ after)%string
          /\ toLowerCase middle ∈ Spec.transient_words).
Proof.
  split.
  - intros before middle after props Hword.
    unfold defaultIsRetryable.
    match goal with |- (if ?c then true else _) = true => destruct c end;
      [reflexivity|].
    simpl instanceof_Error. cbv zeta. apply transient_words_spec.
    exists (toLowerCase middle). split; [exact Hword|].
    exists (toLowerCase before), (toLowerCase after).
    rewrite !toLowerCase_append. reflexivity.
  - intros message Hyes. unfold defaultIsRetryable in Hyes.
    simpl in Hyes. apply transient_words_spec in Hyes
      as (word & Hword & before & after & Hcut).
    apply toLowerCase_split in Hcut as (a & rest & -> & Ha & Hrest).
    apply toLowerCase_split in Hrest as (b & c & -> & Hb & Hc).
    exists a, b, c. split; [reflexivity|]. rewrite Hb. exact Hword.
Qed.

(** X10.  The sixth substring test never decides: a text that includes
    "request_timeout" includes "timeout", which the first test has
    already accepted. *)
Theorem request_timeout_is_subsumed (text : string) :
  includes text "request_timeout" = true -> includes text "timeout" = true.
Proof.
  rewrite !includes_spec. intros (before & after & ->).
  exists (before +:+ "request_")%string, after.
  rewrite append_assoc_string. reflexivity.
Qed.

(** The hint for a failure whose [headers] hold a [retry-after] entry
    that is neither [null] nor [undefined] is read from that entry
    alone. *)
Lemma defaultGetRetryAfterMs_lower_case_entry
  (error herror : option string) (props headers : gmap string JsValue)
  (entry : JsValue) :
  nullish entry = false ->
  defaultGetRetryAfterMs
    (JsObject error
       (<["headers" := JsObject herror (<["retry-after" := entry]> headers)]>
          props))
  = match entry with
    | JsNumber seconds => Some (seconds * 1000)
    | JsString text => (fun seconds => seconds * 1000) <$> parseInt10 text
    | _ => None
    end.
Proof.
  intros Hentry. unfold defaultGetRetryAfterMs. simpl.
  rewrite lookup_insert_eq. simpl. rewrite lookup_insert_eq. simpl.
  unfold coalesce. rewrite Hentry.
  destruct entry as [| |b|n|text|e p|p]; try reflexivity.
  destruct (parseInt10 text); reflexivity.
Qed.

Lemma digits_only_acc (l : Decimal.uint) : forall p : positive,
  Spec.digits_only (Some (Z.pos p)) (NilEmpty.string_of_uint l)
  = Some (Z.pos (Pos.of_uint_acc l p)).
Proof.
  induction l as [|l IH|l IH|l IH|l IH|l IH|l IH|l IH|l IH|l IH|l IH];
    intros p; [reflexivity|..];
    cbn [NilEmpty.string_of_uint Spec.digits_only Pos.of_uint_acc];
    change (digit_value _) with (Some 0) || change (digit_value _) with (Some 1)
    || change (digit_value _) with (Some 2) || change (digit_value _) with (Some 3)
    || change (digit_value _) with (Some 4) || change (digit_value _) with (Some 5)
    || change (digit_value _) with (Some 6) || change (digit_value _) with (Some 7)
    || change (digit_value _) with (Some 8) || change (digit_value _) with (Some 9);
    cbn [default from_option id]; rewrite <- IH; f_equal; f_equal; lia.
Qed.

Lemma digits_only_zero (l : Decimal.uint) :
  Spec.digits_only (Some 0) (NilEmpty.string_of_uint l)
  = Some (Z.of_N (Pos.of_uint l)).
Proof.
  induction l as [|l IH|l IH|l IH|l IH|l IH|l IH|l IH|l IH|l IH|l IH];
    [reflexivity | exact IH | ..];
    cbn [NilEmpty.string_of_uint Spec.digits_only Pos.of_uint];
    change (digit_value _) with (Some 1) || change (digit_value _) with (Some 2)
    || change (digit_value _) with (Some 3) || change (digit_value _) with (Some 4)
    || change (digit_value _) with (Some 5) || change (digit_value _) with (Some 6)
    || change (digit_value _) with (Some 7) || change (digit_value _) with (Some 8)
    || change (digit_value _) with (Some 9);
    cbn [default from_option id]; apply digits_only_acc.
Qed.

Lemma integer_string_of_positive (p : positive) :
  Spec.digits_only None (NilEmpty.string_of_uint (Pos.to_uint p))
  = Some (Z.pos p)
  /\ Spec.integer_string (NilEmpty.string_of_uint (Pos.to_uint p))
     = Some (Z.pos p)
  /\ NilZero.string_of_uint (Pos.to_uint p)
     = NilEmpty.string_of_uint (Pos.to_uint p).
Proof.
  pose proof (DecimalPos.Unsigned.of_to p) as Hvalue.
  pose proof (DecimalPos.Unsigned.to_uint_nonnil p) as Hnonnil.
  pose proof (digits_only_zero (Pos.to_uint p)) as Hdigits.
  rewrite Hvalue in Hdigits. simpl Z.of_N in Hdigits.
  destruct (Pos.to_uint p); [congruence|..];
    (split; [exact Hdigits | split; [exact Hdigits | reflexivity]]).
Qed.

(** Printing an integer and reading the text back gives the integer. *)
Lemma parseInt10_number_to_string (n : Z) :
  parseInt10 (number_to_string n) = Some n.
Proof.
  apply parseInt10_integer_string. unfold number_to_string.
  destruct n as [|p|p]; [reflexivity|..];
    destruct (integer_string_of_positive p) as (Hdigits & Hinteger & Hprint);
    cbn [Z.to_int NilZero.string_of_int]; rewrite Hprint.
  - exact Hinteger.
  - cbn [Spec.integer_string]. rewrite Hdigits. reflexivity.
Qed.

(** X11.  A [retry-after] header that holds the decimal text of an
    integer gives the same hint as one that holds the integer itself,
    1000 times it, whatever else the failure and its headers hold. *)
Theorem retry_after_text_or_number (n : Z)
  (error herror : option string) (props headers : gmap string JsValue) :
  defaultGetRetryAfterMs
    (JsObject error
       (<["headers" :=
            JsObject herror
              (<["retry-after" := JsString (number_to_string n)]> headers)]>
          props))
  = Some (n * 1000)
  /\ defaultGetRetryAfterMs
       (JsObject error
          (<["headers" :=
               JsObject herror (<["retry-after" := JsNumber n]> headers)]>
             props))
     = Some (n * 1000).
Proof.
  rewrite !defaultGetRetryAfterMs_lower_case_entry by reflexivity.
  rewrite parseInt10_number_to_string. split; reflexivity.
Qed.

Lemma parseInt10_no_digit (c : ascii) (rest : string) :
  is_white_space c = false ->
  digit_value c = None ->
  c <> "-"%char -> c <> "+"%char ->
  parseInt10 (String c rest) = None.
Proof.
  destruct c as [[] [] [] [] [] [] [] []]; intros Hspace Hdigit Hminus Hplus;
    try (vm_compute in Hspace; discriminate);
    try (vm_compute in Hdigit; discriminate);
    try (exfalso; apply Hminus; reflexivity);
    try (exfalso; apply Hplus; reflexivity);
    reflexivity.
Qed.

(** X12.  A [retry-after] string that does not begin with white space,
    a sign or a digit -- an HTTP-date, for one -- gives no hint, also
    when a [Retry-After] entry is present; the retry that follows such a
    failure then waits for the exponential delay. *)
Theorem unreadable_retry_after_falls_back (c : ascii) (rest : string)
  (error herror : option string) (props headers : gmap string JsValue) :
  is_white_space c = false ->
  digit_value c = None ->
  c <> "-"%char -> c <> "+"%char ->
  defaultGetRetryAfterMs
    (JsObject error
       (<["headers" :=
            JsObject herror
              (<["retry-after" := JsString (String c rest)]> headers)]>
          props))
  = None
  /\ forall (T W : Type) (fn : W -> Settled T * W) (options : RetryOptions)
       (w w' : W),
       getRetryAfterMs options = None ->
       1 <= maxRetries_of options ->
       isRetryable_of options
         (JsObject error
            (<["headers" :=
                 JsObject herror
                   (<["retry-after" := JsString (String c rest)]> headers)]>
               props)) = true ->
       fn w
       = (Rejected
            (JsObject error
               (<["headers" :=
                    JsObject herror
                      (<["retry-after" := JsString (String c rest)]>
                         headers)]>
                  props)), w') ->
       timers (snd (withRetry fn options (start w))) !! O
       = Some (Z.min (initialDelayMs_of options) (maxDelayMs_of options)).
Proof.
  intros Hspace Hdigit Hminus Hplus.
  assert (Hnone : defaultGetRetryAfterMs
            (JsObject error
               (<["headers" :=
                    JsObject herror
                      (<["retry-after" := JsString (String c rest)]>
                         headers)]>
                  props)) = None).
  { rewrite defaultGetRetryAfterMs_lower_case_entry by reflexivity.
    rewrite (parseInt10_no_digit c rest Hspace Hdigit Hminus Hplus).
    reflexivity. }
  split; [exact Hnone|].
  intros T W fn options w w' Hextractor Hbudget Hyes Hfn.
  rewrite (withRetry_first_delay fn options w _ w' Hbudget Hfn Hyes).
  unfold getRetryAfterMs_of. rewrite Hextractor. simpl. rewrite Hnone.
  unfold delay_of. rewrite Z.mul_1_r. reflexivity.
Qed.

(** ** The further properties at concrete runs *)

Module FurtherWitness.
Import Samples.

Lemma settlement_scripted_nil {T : Type} (otherwise : JsValue) (i w : nat) :
  settlement (scripted (T := T) [] otherwise) i w = Rejected otherwise.
Proof.
  revert w. induction i as [|i IH]; intros w; [reflexivity|].
  exact (IH (S w)).
Qed.

(** One 503, then success. *)
Lemma withRetry_settles_as_last_invocation_witness :
  exists k : nat,
    invocations
      (snd (withRetry (scripted [Rejected (status 503); Fulfilled 7%nat] JsNull)
              no_options (start O))) = S k
    /\ fst (withRetry (scripted [Rejected (status 503); Fulfilled 7%nat] JsNull)
              no_options (start O))
       = settlement (scripted [Rejected (status 503); Fulfilled 7%nat] JsNull)
           k O
    /\ world
         (snd (withRetry
                 (scripted [Rejected (status 503); Fulfilled 7%nat] JsNull)
                 no_options (start O)))
       = worldAfter (scripted [Rejected (status 503); Fulfilled 7%nat] JsNull)
           (S k) O
    /\ forall i, (i < k)%nat ->
         exists error,
           settlement (scripted [Rejected (status 503); Fulfilled 7%nat] JsNull)
             i O = Rejected error
           /\ isRetryable_of no_options error = true.
Proof.
  apply (withRetry_settles_as_last_invocation
           (scripted [Rejected (status 503); Fulfilled 7%nat] JsNull)
           no_options O).
  vm_compute. discriminate.
Defined.

(** Two 503s, then success, within the default budget. *)
Lemma withRetry_stops_at_first_decisive_witness :
  exists (delays : list Z) (lines : list string),
    withRetry (scripted [Rejected (status 503); Rejected (status 503);
                         Fulfilled 7%nat] JsNull) no_options (start O)
    = (Fulfilled 7%nat, mkRuntime 3%nat 3 lines delays)
    /\ length delays = 2%nat
    /\ length lines = 2%nat.
Proof.
  apply (withRetry_stops_at_first_decisive
           (scripted [Rejected (status 503); Rejected (status 503);
                      Fulfilled 7%nat] JsNull) no_options 2 O).
  - vm_compute. discriminate.
  - intros i Hi. destruct i as [|[|i]]; [vm_compute; reflexivity..|lia].
  - vm_compute. reflexivity.
Defined.

Lemma withRetry_lines_report_delays_witness :
  stderr (snd (withRetry (scripted (T := nat) [] (status 503)) no_options
                 (start O))) !! 1%nat
  = Some (retry_message (label_prefix None) 2000 2 10).
Proof.
  apply (proj2 (withRetry_lines_report_delays
                  (scripted (T := nat) [] (status 503)) no_options O)
           1%nat 2000).
  vm_compute. reflexivity.
Defined.

(** Every failure asks for two seconds. *)
Lemma withRetry_delays_within_bounds_witness :
  timers (snd (withRetry
                 (scripted (T := nat) [] (retry_after (JsNumber 2)))
                 (retries 3) (start O))) !! 2%nat = Some 2000
  /\ 0 <= 2000 <= maxDelayMs_of (retries 3).
Proof.
  assert (Hslept :
    timers (snd (withRetry
                   (scripted (T := nat) [] (retry_after (JsNumber 2)))
                   (retries 3) (start O))) !! 2%nat = Some 2000)
    by (vm_compute; reflexivity).
  split; [exact Hslept|]. split.
  - apply (proj2 (withRetry_delays_within_bounds
                    (scripted (T := nat) [] (retry_after (JsNumber 2)))
                    (retries 3) O)) with (i := 2%nat).
    + vm_compute. discriminate.
    + vm_compute. discriminate.
    + intros i error h Hset Hhint.
      rewrite settlement_scripted_nil in Hset. injection Hset as <-.
      vm_compute in Hhint. injection Hhint as <-. lia.
    + exact Hslept.
  - apply (proj1 (withRetry_delays_within_bounds
                    (scripted (T := nat) [] (retry_after (JsNumber 2)))
                    (retries 3) O) 2%nat 2000 Hslept).
Defined.

(** Ten retries by default: at most 300 seconds asleep. *)
Lemma withRetry_total_delay_bounded_witness :
  total_delay
    (timers (snd (withRetry (scripted (T := nat) [] (status 503)) no_options
                    (start O))))
  <= 10 * 30000.
Proof.
  apply (withRetry_total_delay_bounded
           (scripted (T := nat) [] (status 503)) no_options O);
    vm_compute; discriminate.
Defined.

Lemma withRetry_backoff_monotone_witness :
  timers (snd (withRetry (scripted (T := nat) [] (status 503)) no_options
                 (start O))) !! 4%nat = Some 16000
  /\ timers (snd (withRetry (scripted (T := nat) [] (status 503)) no_options
                    (start O))) !! 7%nat = Some 30000
  /\ 16000 <= 30000.
Proof.
  assert (H4 :
    timers (snd (withRetry (scripted (T := nat) [] (status 503)) no_options
                   (start O))) !! 4%nat = Some 16000)
    by (vm_compute; reflexivity).
  assert (H7 :
    timers (snd (withRetry (scripted (T := nat) [] (status 503)) no_options
                   (start O))) !! 7%nat = Some 30000)
    by (vm_compute; reflexivity).
  split; [exact H4|]. split; [exact H7|].
  refine (proj1 (withRetry_backoff_monotone
                   (scripted (T := nat) [] (status 503)) no_options O _ _)
            4%nat 7%nat 16000 30000 _ H4 H7).
  - vm_compute. discriminate.
  - intros i error Hset. rewrite settlement_scripted_nil in Hset.
    injection Hset as <-. vm_compute. reflexivity.
  - lia.
Defined.

Lemma withRetry_zero_budget_witness :
  withRetry (scripted (T := nat) [] (status 503)) (retries 0) (start O)
  = (Rejected (status 503), mkRuntime 1%nat 1 [] []).
Proof.
  apply (withRetry_zero_budget
           (scripted (T := nat) [] (status 503)) (retries 0) O).
  reflexivity.
Defined.

(** The empty label against no label. *)
Lemma withRetry_label_only_in_lines_witness :
  withRetry (scripted (T := nat) [] (status 503))
    (with_label (Some EmptyString) (retries 2)) (start O)
  = withRetry (scripted (T := nat) [] (status 503)) (retries 2) (start O).
Proof.
  apply (withRetry_label_only_in_lines
           (scripted (T := nat) [] (status 503)) (retries 2)
           (Some EmptyString) O).
  reflexivity.
Defined.

Lemma defaultIsRetryable_any_letter_case_witness :
  defaultIsRetryable (JsObject (Some "Connect TimeOut after 30s"%string) ∅)
  = true.
Proof.
  apply (proj1 defaultIsRetryable_any_letter_case
           "Connect "%string "TimeOut"%string " after 30s"%string ∅).
  vm_compute. set_solver.
Defined.

Lemma request_timeout_is_subsumed_witness :
  includes "error: request_timeout (10s)" "timeout" = true.
Proof.
  apply (request_timeout_is_subsumed "error: request_timeout (10s)").
  reflexivity.
Defined.

(** An HTTP-date. *)
Lemma unreadable_retry_after_falls_back_witness :
  defaultGetRetryAfterMs
    (JsObject None
       (<["headers" :=
            JsObject None
              (<["retry-after" := JsString "Wed, 21 Oct 2015 07:28:00 GMT"]>
                 ∅)]> ∅))
  = None.
Proof.
  apply (proj1 (unreadable_retry_after_falls_back
                  "W"%char "ed, 21 Oct 2015 07:28:00 GMT" None None ∅ ∅
                  eq_refl eq_refl ltac:(discriminate) ltac:(discriminate))).
Defined.

End FurtherWitness.
